(** * replicate-rhubarb: the lip-sync predictor of [predict.py]

    A shallow embedding of [Predictor] (predict.py): the request handler
    [predict], the pipeline [process_audio_with_rhubarb], the external-tool
    wrappers [convert_to_wav], [split_audio_into_chunks] and [run_rhubarb],
    and [cleanup_temp_files].

    Python values that come out of [json.load] are the inductive [json];
    exceptions are an explicit [Raise] result carrying [str(e)]; the file
    system, the subprocesses and [print] are threaded through a state and
    error monad [io] over a [world].  What the external programs (ffmpeg,
    ffprobe, rhubarb) and the Python library ([base64], [json], [float],
    [time], and [list.sort] on keys that [<] does not order) do is not
    part of the repository: it is a [host] record the whole development is
    parameterised by. *)

From Stdlib Require Import Ascii String QArith Qround OrderedTypeEx.
From stdpp Require Import base gmap strings list sorting pretty.

Set Warnings "-register-all,-clear-no-such-hyp".

Local Open Scope string_scope.
Local Open Scope list_scope.

(** ** Results of fallible code *)

Inductive result (A : Type) : Type :=
| Ok (a : A)
| Raise (msg : string).
Arguments Ok {A} a.
Arguments Raise {A} msg.

Definition rbind {A B} (r : result A) (k : A → result B) : result B :=
  match r with
  | Ok a => k a
  | Raise msg => Raise msg
  end.

Notation "'let*' x := r 'in' k" := (rbind r (λ x, k))
  (at level 10, x name, r at level 100, k at level 200).

(** ** Python values *)

(** The values [json.load] builds.  An [int] is an integer; a [float] is
    an exact rational (the rounding of binary floating point is not
    modelled) or one of the three constants [json.load] reads besides
    them, [NaN], [Infinity] and [-Infinity]; a Python [dict] is the list
    of its items in insertion order, keys distinct, read by the first
    match. *)
Inductive json : Type :=
| JNull
| JBool (b : bool)
| JInt (z : Z)
| JNum (q : Q)
| JNaN
| JInfinity (negative : bool)
| JStr (s : string)
| JArr (items : list json)
| JObj (fields : list (string * json)).

Fixpoint assoc (k : string) (fields : list (string * json)) : option json :=
  match fields with
  | [] => None
  | (k', v) :: rest => if String.eqb k k' then Some v else assoc k rest
  end.

Definition type_name (v : json) : string :=
  match v with
  | JNull => "NoneType"
  | JBool _ => "bool"
  | JInt _ => "int"
  | JNum _ => "float"
  | JNaN => "float"
  | JInfinity _ => "float"
  | JStr _ => "str"
  | JArr _ => "list"
  | JObj _ => "dict"
  end.

(** [bool(v)] *)
Definition truthy (v : json) : bool :=
  match v with
  | JNull => false
  | JBool b => b
  | JInt z => negb (Z.eqb z 0)
  | JNum q => negb (Qeq_bool q 0)
  | JNaN => true
  | JInfinity _ => true
  | JStr s => negb (String.eqb s "")
  | JArr items => match items with [] => false | _ => true end
  | JObj fields => match fields with [] => false | _ => true end
  end.

Definition is_substring (needle hay : string) : bool :=
  match String.index 0 needle hay with
  | Some _ => true
  | None => false
  end.

Definition is_str (k : string) (v : json) : bool :=
  match v with
  | JStr s => String.eqb s k
  | _ => false
  end.

(** [k in v] for a string [k] *)
Definition py_contains (k : string) (v : json) : result bool :=
  match v with
  | JObj fields => Ok (match assoc k fields with Some _ => true | None => false end)
  | JArr items => Ok (existsb (is_str k) items)
  | JStr s => Ok (is_substring k s)
  | _ => Raise ("argument of type '" +:+ type_name v +:+ "' is not iterable")
  end.

(** [v[k]] for a string [k] *)
Definition py_getitem (v : json) (k : string) : result json :=
  match v with
  | JObj fields =>
      match assoc k fields with
      | Some x => Ok x
      | None => Raise ("'" +:+ k +:+ "'")
      end
  | JArr _ => Raise "list indices must be integers or slices, not str"
  | JStr _ => Raise "string indices must be integers, not 'str'"
  | _ => Raise ("'" +:+ type_name v +:+ "' object is not subscriptable")
  end.

Fixpoint chars (s : string) : list json :=
  match s with
  | EmptyString => []
  | String c rest => JStr (String c EmptyString) :: chars rest
  end.

(** The items [list.extend(v)] appends. *)
Definition py_iter (v : json) : result (list json) :=
  match v with
  | JArr items => Ok items
  | JStr s => Ok (chars s)
  | JObj fields => Ok (map (λ kv, JStr (fst kv)) fields)
  | _ => Raise ("'" +:+ type_name v +:+ "' object is not iterable")
  end.

(** ** Ordering of sort keys *)

(** A Python [float]: what [float(...)] returns and what a number read by
    [json.load] is. *)
Inductive pyfloat : Type :=
| Finite (q : Q)
| Infinity (negative : bool)
| NaN.

(** A number that is not one of the three constants; [True] and [False]
    count as 1 and 0. *)
Definition as_number (v : json) : option Q :=
  match v with
  | JInt z => Some (inject_Z z)
  | JNum q => Some q
  | JBool b => Some (if b then 1%Q else 0%Q)
  | _ => None
  end.

Definition as_float (v : json) : option pyfloat :=
  match v with
  | JInt z => Some (Finite (inject_Z z))
  | JNum q => Some (Finite q)
  | JBool b => Some (Finite (if b then 1%Q else 0%Q))
  | JNaN => Some NaN
  | JInfinity negative => Some (Infinity negative)
  | _ => None
  end.

Definition Qltb (x y : Q) : bool := negb (Qle_bool y x).

(** [x < y] on floats: false whenever one of them is NaN. *)
Definition float_ltb (x y : pyfloat) : bool :=
  match x, y with
  | NaN, _ => false
  | _, NaN => false
  | Finite a, Finite b => Qltb a b
  | Finite _, Infinity negative => negb negative
  | Infinity negative, Finite _ => negative
  | Infinity n1, Infinity n2 => n1 && negb n2
  end.

(** [a < b] for two numbers or two strings (by code point).  There is no
    answer here for any other pair: Python raises [TypeError] between
    values of different kinds and for [None] and dicts, and compares two
    lists item by item; [list_sort] below does not ask about those. *)
Definition py_lt (a b : json) : option bool :=
  match as_float a, as_float b with
  | Some x, Some y => Some (float_ltb x y)
  | _, _ =>
      match a, b with
      | JStr s, JStr t => Some (String.ltb s t)
      | _, _ => None
      end
  end.

Definition is_float (v : json) : bool :=
  match as_float v with Some _ => true | None => false end.

(** A number other than NaN. *)
Definition is_ordered_number (v : json) : bool :=
  match as_float v with
  | Some NaN => false
  | Some _ => true
  | None => false
  end.

Definition is_string (v : json) : bool :=
  match v with JStr _ => true | _ => false end.

Definition is_list (v : json) : bool :=
  match v with JArr _ => true | _ => false end.

(** Keys on which [<] is a total order: numbers without NaN, or strings. *)
Definition totally_ordered (keys : list json) : bool :=
  forallb is_ordered_number keys || forallb is_string keys.

(** ** Strings and numbers of the Python library *)

(** A character of a [string] is one code point below 256; these are the
    ones [str.isspace] accepts in that range. *)
Definition is_space (c : ascii) : bool :=
  let n := nat_of_ascii c in
  (Nat.leb 9 n && Nat.leb n 13) || (Nat.leb 28 n && Nat.leb n 32)
  || Nat.eqb n 133 || Nat.eqb n 160.

Fixpoint lstrip (s : string) : string :=
  match s with
  | EmptyString => EmptyString
  | String c rest => if is_space c then lstrip rest else s
  end.

Fixpoint rstrip (s : string) : string :=
  match s with
  | EmptyString => EmptyString
  | String c rest =>
      match rstrip rest with
      | EmptyString => if is_space c then EmptyString else String c EmptyString
      | rest' => String c rest'
      end
  end.

Definition strip (s : string) : string := rstrip (lstrip s).

Definition float_div (x : pyfloat) (d : Z) : pyfloat :=
  match x with
  | Finite q => Finite (q / inject_Z d)
  | other => other
  end.

(** Rounding towards zero. *)
Definition truncate (q : Q) : Z :=
  if Qle_bool 0 q then Qfloor q else Qceiling q.

(** [int(x)] *)
Definition py_int (x : pyfloat) : result Z :=
  match x with
  | Finite q => Ok (truncate q)
  | Infinity _ => Raise "cannot convert float infinity to integer"
  | NaN => Raise "cannot convert float NaN to integer"
  end.

(** [range(n)] *)
Definition range (n : Z) : list nat := seq 0 (Z.to_nat n).

(** ** The world outside the interpreter *)

Inductive event : Type :=
| EWrite (path data : string)
| ESpawn (cmd : list string)
| EUnlink (path : string)
| EPrint (msg : string).

(** The files that exist, and everything the run has done so far, oldest
    first. *)
Record world : Type := World { files : gset string; trace : list event }.

(** [subprocess.CompletedProcess] *)
Record completed : Type :=
  Completed { returncode : Z; stdout : string; stderr : string }.

(** What the repository calls but does not define.  A [Raise] is the
    exception the call raises there; the file-system calls are consulted
    only for the part the model cannot decide itself. *)
Record host : Type := Host {
  (** [base64.b64decode] *)
  b64decode : string → result string;
  (** [float(s)] on an already stripped string *)
  float_of_str : string → result pyfloat;
  (** [time.time()] *)
  time_time : world → Q;
  (** whether [open(path, 'wb')] and the write succeed *)
  open_wb : string → world → result unit;
  (** the outcome of a child process and the files it leaves behind; a
      [Raise] is the [OSError] of a program that cannot be started *)
  run_process : list string → world → result (completed * gset string);
  (** [json.load] on an existing file *)
  json_load : string → world → result json;
  (** the [OSError] of [os.unlink] on an existing file, if any *)
  unlink_error : string → world → option string;
  (** [list.sort] on numbers some of which are NaN, where [<] is not an
      order: the indices of the keys in the order it leaves them *)
  sort_order : list json → list nat;
  (** [list.sort] on keys some of which are lists: the indices of the keys
      in their new order, or the [TypeError] of a comparison *)
  sort_lists : list json → result (list nat);
  (** the message of the [TypeError] of [list.sort] on keys that have no
      order *)
  sort_type_error : list json → string
}.

(** ** Merging the per-chunk results (predict.py, lines 79-85) *)

(** The keys are computed for every item before any comparison. *)
Fixpoint with_keys (key : json → result json) (l : list json)
  : result (list (json * json)) :=
  match l with
  | [] => Ok []
  | x :: rest =>
      let* k := key x in
      let* rest' := with_keys key rest in
      Ok ((k, x) :: rest')
  end.

Definition key_ltb (a b : json) : bool :=
  match py_lt a b with Some true => true | _ => false end.

(** Stable insertion on (key, item) pairs: an item goes in front of the
    first one whose key is not smaller. *)
Fixpoint insert_by_key (kx : json * json) (l : list (json * json))
  : list (json * json) :=
  match l with
  | [] => [kx]
  | ky :: rest =>
      if key_ltb (fst ky) (fst kx) then ky :: insert_by_key kx rest
      else kx :: ky :: rest
  end.

Fixpoint sort_keyed (l : list (json * json)) : list (json * json) :=
  match l with
  | [] => []
  | kx :: rest => insert_by_key kx (sort_keyed rest)
  end.

(** No key is smaller than the one before it: [list.sort] begins by
    looking for such a run from the left. *)
Fixpoint ascending_run (keys : list json) : bool :=
  match keys with
  | a :: (b :: _) as rest =>
      match py_lt b a with
      | Some false => ascending_run rest
      | _ => false
      end
  | _ => true
  end.

(** The items of [l] in the order of the indices [order]; an [order] that
    is not a rearrangement of the indices of [l] is no answer of a sort and
    leaves [l] as it is. *)
Definition apply_order {A} (order : list nat) (l : list A) : list A :=
  if bool_decide (order ≡ₚ seq 0 (length l)) then omap (λ i, l !! i) order
  else l.

(** [l.sort(key=key)].  With fewer than two items nothing is compared.
    Where [<] is a total order on the keys, the result is that of any
    stable sort, here stable insertion.  Numbers with a NaN among them are
    left alone when they already are one ascending run, the first thing
    [list.sort] looks for; what it makes of them otherwise, and of keys
    that are lists, is the host's.  Any other keys have no order and the
    sort raises [TypeError]. *)
Definition list_sort (h : host) (key : json → result json) (l : list json)
  : result (list json) :=
  let* keyed := with_keys key l in
  let keys := map fst keyed in
  if Nat.ltb (length keyed) 2 then Ok l
  else if existsb is_list keys then
    let* order := sort_lists h keys in
    Ok (map snd (apply_order order keyed))
  else if totally_ordered keys then Ok (map snd (sort_keyed keyed))
  else if forallb is_float keys then
    if ascending_run keys then Ok l
    else Ok (map snd (apply_order (sort_order h keys) keyed))
  else Raise (sort_type_error h keys).

(** [lambda x: x["start"]] *)
Definition start_key (x : json) : result json := py_getitem x "start".

(** What one result adds to [mouth_cues] (lines 81-82): the items of
    [result["mouthCues"]] when [result] is truthy and has the key. *)
Definition cues_of (r : json) : result (list json) :=
  if truthy r then
    let* has := py_contains "mouthCues" r in
    if (has : bool) then
      let* cues := py_getitem r "mouthCues" in py_iter cues
    else Ok []
  else Ok [].

(** The loop of lines 80-82. *)
Fixpoint collect_cues (all_results : list json) : result (list json) :=
  match all_results with
  | [] => Ok []
  | r :: rest =>
      let* here := cues_of r in
      let* later := collect_cues rest in
      Ok (here ++ later)
  end.

Definition merge_results (h : host) (all_results : list json) : result (list json) :=
  let* mouth_cues := collect_cues all_results in
  list_sort h start_key mouth_cues.

(** ** State and exceptions *)

Definition io (A : Type) : Type := world → result A * world.

Definition ret {A} (a : A) : io A := λ w, (Ok a, w).

Definition raise {A} (msg : string) : io A := λ w, (Raise msg, w).

Definition bind {A B} (c : io A) (k : A → io B) : io B :=
  λ w, match c w with
       | (Ok a, w') => k a w'
       | (Raise msg, w') => (Raise msg, w')
       end.

Notation "x <- c ;; k" := (bind c (λ x, k))
  (at level 100, c at next level, right associativity).
Notation "c ;;; k" := (bind c (λ _, k))
  (at level 100, right associativity).

(** [try: body / except Exception as e: handler(str(e))] *)
Definition try_except {A} (body : io A) (handler : string → io A) : io A :=
  λ w, match body w with
       | (Ok a, w') => (Ok a, w')
       | (Raise msg, w') => handler msg w'
       end.

Definition lift {A} (r : result A) : io A := λ w, (r, w).

Definition log (e : event) (w : world) : world :=
  World (files w) (trace w ++ [e]).

Definition print (msg : string) : io unit := λ w, (Ok tt, log (EPrint msg) w).

Definition no_such_file (path : string) : string :=
  "[Errno 2] No such file or directory: '" +:+ path +:+ "'".

Definition os_path_exists (path : string) : io bool :=
  λ w, (Ok (bool_decide (path ∈ files w)), w).

Section Predictor.
Context (h : host).

(** [with open(path, 'wb') as f: f.write(data)] *)
Definition write_file (path data : string) : io unit :=
  λ w, match open_wb h path w with
       | Ok _ => (Ok tt, World ({[path]} ∪ files w) (trace w ++ [EWrite path data]))
       | Raise msg => (Raise msg, w)
       end.

(** [with open(path, 'r') as f: json.load(f)] *)
Definition read_json (path : string) : io json :=
  λ w, if bool_decide (path ∈ files w) then (json_load h path w, w)
       else (Raise (no_such_file path), w).

Definition os_unlink (path : string) : io unit :=
  λ w, if bool_decide (path ∈ files w) then
         match unlink_error h path w with
         | None => (Ok tt, World (files w ∖ {[path]}) (trace w ++ [EUnlink path]))
         | Some msg => (Raise msg, w)
         end
       else (Raise (no_such_file path), w).

(** [subprocess.run(cmd, capture_output=True)] *)
Definition subprocess_run (cmd : list string) : io completed :=
  λ w, let w1 := log (ESpawn cmd) w in
       match run_process h cmd w1 with
       | Ok (p, fs) => (Ok p, World fs (trace w1))
       | Raise msg => (Raise msg, w1)
       end.

(** *** [cleanup_temp_files] (lines 194-203) *)
Fixpoint cleanup_temp_files (file_paths : list string) : io unit :=
  match file_paths with
  | [] => ret tt
  | file_path :: rest =>
      try_except
        (present <- os_path_exists file_path ;;
         if (present : bool) then os_unlink file_path else ret tt)
        (λ e, print ("Failed to delete " +:+ file_path +:+ ": " +:+ e)) ;;;
      cleanup_temp_files rest
  end.

(** *** [convert_to_wav] (lines 97-119) *)
Definition convert_cmd (input_path output_path : string) : list string :=
  ["ffmpeg"; "-i"; input_path; "-acodec"; "pcm_s16le"; "-ar"; "44100";
   "-ac"; "1"; "-y"; output_path].

Definition convert_to_wav (input_path output_path : string) : io string :=
  try_except
    (result <- subprocess_run (convert_cmd input_path output_path) ;;
     if bool_decide (returncode result ≠ 0%Z) then
       raise ("FFmpeg conversion failed: " +:+ stderr result)
     else ret output_path)
    (λ e, raise ("Audio conversion failed: " +:+ e)).

(** *** [split_audio_into_chunks] (lines 121-162) *)
Definition chunk_duration : nat := 30.

Definition duration_cmd (wav_path : string) : list string :=
  ["ffprobe"; "-v"; "quiet"; "-show_entries"; "format=duration"; "-of";
   "csv=p=0"; wav_path].

Definition start_time (i : nat) : nat := i * chunk_duration.

Definition chunk_path (timestamp : string) (i : nat) : string :=
  "/tmp/chunk-" +:+ timestamp +:+ "-" +:+ pretty i +:+ ".wav".

Definition chunk_cmd (wav_path timestamp : string) (i : nat) : list string :=
  ["ffmpeg"; "-i"; wav_path; "-ss"; pretty (start_time i);
   "-t"; pretty chunk_duration; "-acodec"; "pcm_s16le"; "-ar"; "44100";
   "-ac"; "1"; "-y"; chunk_path timestamp i].

(** The body of [for i in range(num_chunks)]. *)
Fixpoint extract_chunks (wav_path timestamp : string) (indices : list nat)
  : io (list string) :=
  match indices with
  | [] => ret []
  | i :: rest =>
      subprocess_run (chunk_cmd wav_path timestamp i) ;;;
      chunks <- extract_chunks wav_path timestamp rest ;;
      ret (chunk_path timestamp i :: chunks)
  end.

Definition split_audio_into_chunks (wav_path timestamp : string) : io (list string) :=
  try_except
    (result <- subprocess_run (duration_cmd wav_path) ;;
     duration <- lift (float_of_str h (strip (stdout result))) ;;
     whole <- lift (py_int (float_div duration (Z.of_nat chunk_duration))) ;;
     let num_chunks := (whole + 1)%Z in
     extract_chunks wav_path timestamp (range num_chunks))
    (λ e, raise ("Audio chunking failed: " +:+ e)).

(** *** [run_rhubarb] (lines 164-192) *)
Definition rhubarb_cmd (input_path output_path : string) : list string :=
  ["rhubarb"; input_path; "-o"; output_path; "--exportFormat"; "json";
   "--recognizer"; "phonetic"; "--machineReadable"; "--quiet"].

Definition no_cues : json := JObj [("mouthCues", JArr [])].

Definition run_rhubarb (input_path output_path : string) : io json :=
  try_except
    (result <- subprocess_run (rhubarb_cmd input_path output_path) ;;
     if bool_decide (returncode result ≠ 0%Z) then
       print ("Rhubarb stderr: " +:+ stderr result) ;;;
       ret no_cues
     else
       data <- read_json output_path ;;
       ret data)
    (λ e, print ("Rhubarb processing failed: " +:+ e) ;;; ret no_cues).

(** *** [process_audio_with_rhubarb] (lines 50-95) *)

(** The loop of lines 69-76 over [enumerate(chunks)], from index [i]. *)
Fixpoint analyze_chunks (output_path : string) (i : nat) (chunks : list string)
  : io (list json) :=
  match chunks with
  | [] => ret []
  | chunk :: rest =>
      let chunk_output := output_path +:+ "-chunk" +:+ pretty i +:+ ".json" in
      chunk_result <- run_rhubarb chunk chunk_output ;;
      os_unlink chunk ;;;
      all_results <- analyze_chunks output_path (S i) rest ;;
      ret (chunk_result :: all_results)
  end.

Definition process_audio_with_rhubarb (audio_data timestamp : string) : io json :=
  let input_path := "/tmp/input-" +:+ timestamp +:+ ".wav" in
  let output_path := "/tmp/output-" +:+ timestamp +:+ ".json" in
  try_except
    (audio_bytes <- lift (b64decode h audio_data) ;;
     write_file input_path audio_bytes ;;;
     wav_path <- convert_to_wav input_path ("/tmp/wav-" +:+ timestamp +:+ ".wav") ;;
     chunks <- split_audio_into_chunks wav_path timestamp ;;
     all_results <- analyze_chunks output_path 0 chunks ;;
     mouth_cues <- lift (merge_results h all_results) ;;
     cleanup_temp_files [input_path; wav_path; output_path] ;;;
     ret (JObj [("mouthCues", JArr mouth_cues)]))
    (λ e, cleanup_temp_files [input_path; output_path] ;;; raise e).

(** *** [predict] (lines 16-48) *)
Definition ready_payload : json :=
  JObj [("status", JStr "OK"); ("message", JStr "Rhubarb model is ready");
        ("mouthCues", JArr [])].

Definition error_payload (msg : string) : json :=
  JObj [("error", JStr msg); ("mouthCues", JArr [])].

Definition now : io Q := λ w, (Ok (time_time h w), w).

(** The timestamp of line 39. *)
Definition timestamp_at (w : world) : string :=
  pretty (truncate (time_time h w * 1000)).

(** The value of [predict] is the object it hands to [json.dumps], which
    serialises every value of [json]. *)
Definition predict (audio_data : string) (wake_up : bool) : io json :=
  try_except
    (if wake_up then ret ready_payload
     else if negb (truthy (JStr audio_data)) || String.eqb (strip audio_data) "" then
       ret (error_payload "No audio data provided")
     else
       t <- now ;;
       let timestamp := pretty (truncate (t * 1000)) in
       result <- process_audio_with_rhubarb audio_data timestamp ;;
       ret result)
    (λ e, ret (error_payload e)).

End Predictor.

(** * Vocabulary of the specification *)

(** [cues] are the cues of the result [res]: the items of
    [res["mouthCues"]], and none when [res] has no such item. *)
Definition cues_in (res : json) (cues : list json) : Prop :=
  match py_getitem res "mouthCues" with
  | Ok v => py_iter v = Ok cues
  | Raise _ => cues = []
  end.

(** [a] may stand before [b] in ascending order: [b < a] is false. *)
Definition key_le (a b : json) : Prop := py_lt b a = Some false.

Definition is_nan (v : json) : bool :=
  match v with JNaN => true | _ => false end.

(** Neither key is smaller than the other, and neither is NaN. *)
Definition keys_equal (a b : json) : bool :=
  match py_lt a b, py_lt b a with
  | Some false, Some false => negb (is_nan a || is_nan b)
  | _, _ => false
  end.

Definition start_le (x y : json) : Prop :=
  ∃ kx ky, start_key x = Ok kx ∧ start_key y = Ok ky ∧ key_le kx ky.

(** The cue [x] starts at [k]. *)
Definition same_start (k x : json) : bool :=
  match start_key x with
  | Ok kx => keys_equal k kx
  | Raise _ => false
  end.

(** [output] is [input] in ascending order of start, the cues of equal
    start in the order they have in [input]. *)
Definition stably_sorted_by_start (input output : list json) : Prop :=
  StronglySorted start_le output
  ∧ output ≡ₚ input
  ∧ ∀ k, List.filter (same_start k) output = List.filter (same_start k) input.

(** Every cue has a [start], and the starts are numbers without NaN, or
    are strings. *)
Definition ordered_starts (cues : list json) : bool :=
  match with_keys start_key cues with
  | Ok keyed => totally_ordered (map fst keyed)
  | Raise _ => false
  end.

(** No cue starts at NaN or at a list, the two kinds of start that
    [list.sort] takes without [TypeError] and on which [<] is no total
    order here. *)
Definition plain_start (c : json) : bool :=
  match start_key c with
  | Ok k => negb (is_nan k || is_list k)
  | Raise _ => true
  end.

Definition plain_starts (cues : list json) : bool := forallb plain_start cues.

(** A cue as the analyzer documents it: an object whose [start] is a
    number; and a result whose [mouthCues] is a list of such cues. *)
Definition well_formed_cue (c : json) : bool :=
  match start_key c with
  | Ok k => match as_number k with Some _ => true | None => false end
  | Raise _ => false
  end.

Definition well_formed_result (r : json) : bool :=
  match r with
  | JObj fields =>
      match assoc "mouthCues" fields with
      | Some (JArr cues) => forallb well_formed_cue cues
      | _ => false
      end
  | _ => false
  end.

(** A string of whitespace only, the empty one included. *)
Fixpoint all_space (s : string) : bool :=
  match s with
  | EmptyString => true
  | String c rest => is_space c && all_space rest
  end.

(** The analysis of a chunk fails: rhubarb cannot be started, or exits
    non-zero, or its output file cannot be read and parsed. *)
Definition analysis_fails (h : host) (input_path output_path : string) (w : world)
  : bool :=
  let cmd := rhubarb_cmd input_path output_path in
  match run_process h cmd (log (ESpawn cmd) w) with
  | Raise _ => true
  | Ok (p, fs) =>
      bool_decide (returncode p ≠ 0%Z)
      || match read_json h output_path (World fs (trace w ++ [ESpawn cmd])) with
         | (Raise _, _) => true
         | (Ok _, _) => false
         end
  end.

(** ** The merge as section 4.5 of the specification words it

    "Rebases each cue's start/end by adding the owning segment's
    startOffsetSeconds, concatenates all cues across segments, and sorts
    the concatenation ascending by absolute start."  These definitions
    follow that sentence, not the code; they are what [merge_results] is
    compared with. *)
Definition spec_rebase_field (offset : Q) (kv : string * json) : string * json :=
  if String.eqb kv.1 "start" || String.eqb kv.1 "end" then
    match kv.2 with
    | JInt z => (kv.1, JNum (inject_Z z + offset))
    | JNum q => (kv.1, JNum (q + offset))
    | _ => kv
    end
  else kv.

Definition spec_rebase (offset : Q) (cue : json) : json :=
  match cue with
  | JObj fields => JObj (map (spec_rebase_field offset) fields)
  | _ => cue
  end.

Fixpoint spec_collect (i : nat) (all_results : list json) : result (list json) :=
  match all_results with
  | [] => Ok []
  | r :: rest =>
      let* here := cues_of r in
      let* later := spec_collect (S i) rest in
      Ok (map (spec_rebase (inject_Z (Z.of_nat (start_time i)))) here ++ later)
  end.

Definition spec_merge (h : host) (all_results : list json) : result (list json) :=
  let* cues := spec_collect 0 all_results in
  list_sort h start_key cues.

(** ** A concrete host

    A machine handling a 45 second clip, whose base64 text and bytes are
    abbreviated to their first characters: ffmpeg and rhubarb write the
    file they are asked for and exit with 0, ffprobe prints
    [probe_stdout], and rhubarb finds two cues in the first chunk and one
    in the second.  Any other audio data is malformed base64. *)
Definition cue (s e : Q) (v : string) : json :=
  JObj [("start", JNum s); ("end", JNum e); ("value", JStr v)].

Definition demo_run (probe_stdout : string) (cmd : list string) (w : world)
  : result (completed * gset string) :=
  match cmd with
  | "ffmpeg" :: _ => Ok (Completed 0 "" "", {[List.last cmd ""]} ∪ files w)
  | "ffprobe" :: _ => Ok (Completed 0 probe_stdout "", files w)
  | "rhubarb" :: _ :: _ :: out :: _ => Ok (Completed 0 "" "", {[out]} ∪ files w)
  | _ => Raise "[Errno 2] No such file or directory"
  end.

Definition demo_results : list json :=
  [JObj [("mouthCues", JArr [cue 0 (1 # 2) "X"; cue 20 21 "A"])];
   JObj [("mouthCues", JArr [cue (1 # 2) 1 "B"])]].

Definition demo_host (probe_stdout : string) : host := {|
  b64decode := λ s,
    if String.eqb s "UklGRg==" then Ok "RIFF" else Raise "Incorrect padding";
  float_of_str := λ s,
    if String.eqb s "45.000000" then Ok (Finite 45)
    else Raise ("could not convert string to float: '" +:+ s +:+ "'");
  time_time := λ _, 1700000000%Q;
  open_wb := λ _ _, Ok tt;
  run_process := demo_run probe_stdout;
  json_load := λ path _,
    if String.eqb path "/tmp/output-1700000000000.json-chunk0.json" then
      Ok (nth 0 demo_results JNull)
    else Ok (nth 1 demo_results JNull);
  unlink_error := λ _ _, None;
  sort_order := λ keys, seq 0 (length keys);
  sort_lists := λ keys, Ok (seq 0 (length keys));
  sort_type_error := λ _, "'<' not supported between instances of 'str' and 'float'"
|}.

(** The same machine with a rhubarb that exits with status 1. *)
Definition broken_rhubarb_host : host := {|
  b64decode := b64decode (demo_host "45.000000");
  float_of_str := float_of_str (demo_host "45.000000");
  time_time := time_time (demo_host "45.000000");
  open_wb := open_wb (demo_host "45.000000");
  run_process := λ cmd w,
    match cmd with
    | "rhubarb" :: _ => Ok (Completed 1 "" "Error: bad wave file", files w)
    | _ => demo_run "45.000000" cmd w
    end;
  json_load := json_load (demo_host "45.000000");
  unlink_error := unlink_error (demo_host "45.000000");
  sort_order := sort_order (demo_host "45.000000");
  sort_lists := sort_lists (demo_host "45.000000");
  sort_type_error := sort_type_error (demo_host "45.000000")
|}.

Definition empty_world : world := World ∅ [].

(** What ffprobe prints for the clip: the duration and a newline. *)
Definition probe_45 : string := "45.000000" +:+ String "010" "".

(** ** Traces and temporary names *)

(** The events of [w'] that [w] does not have yet are [evs]. *)
Definition appends (w w' : world) (evs : list event) : Prop :=
  trace w' = trace w ++ evs.

(** The paths a list of events unlinks. *)
Definition unlinked (evs : list event) : list string :=
  omap (λ e, match e with EUnlink path => Some path | _ => None end) evs.

(** The commands a list of events starts. *)
Definition spawned (evs : list event) : list (list string) :=
  omap (λ e, match e with ESpawn cmd => Some cmd | _ => None end) evs.

(** The names [process_audio_with_rhubarb] gives its files. *)
Definition input_path_of (timestamp : string) : string :=
  "/tmp/input-" +:+ timestamp +:+ ".wav".
Definition wav_path_of (timestamp : string) : string :=
  "/tmp/wav-" +:+ timestamp +:+ ".wav".
Definition output_path_of (timestamp : string) : string :=
  "/tmp/output-" +:+ timestamp +:+ ".json".
Definition chunk_output_of (timestamp : string) (i : nat) : string :=
  output_path_of timestamp +:+ "-chunk" +:+ pretty i +:+ ".json".

(** Every event [c] adds to the trace satisfies [P], from whatever world
    it is run and whether it returns or raises. *)
Definition keeps (P : event → Prop) {A} (c : io A) : Prop :=
  ∀ w, ∃ evs, appends w (c w).2 evs ∧ Forall P evs.

(** The events of a run with the given timestamp: the input file is the
    only file written by the interpreter itself; the programs started are
    ffmpeg on the input, ffprobe on the wav, ffmpeg for a chunk and rhubarb
    on a chunk with that chunk's output name; the files unlinked are the
    input, the wav, [/tmp/output-<timestamp>.json] and chunks. *)
Definition pipeline_event (timestamp : string) (e : event) : Prop :=
  match e with
  | EWrite path _ => path = input_path_of timestamp
  | ESpawn cmd =>
      cmd = convert_cmd (input_path_of timestamp) (wav_path_of timestamp)
      ∨ cmd = duration_cmd (wav_path_of timestamp)
      ∨ (∃ i, cmd = chunk_cmd (wav_path_of timestamp) timestamp i)
      ∨ (∃ i, cmd = rhubarb_cmd (chunk_path timestamp i) (chunk_output_of timestamp i))
  | EUnlink path =>
      path ∈ [input_path_of timestamp; wav_path_of timestamp; output_path_of timestamp]
      ∨ ∃ i, path = chunk_path timestamp i
  | EPrint _ => True
  end.

(** A machine on which ffmpeg exits with status 1 and writes nothing. *)
Definition broken_ffmpeg_host : host := {|
  b64decode := b64decode (demo_host probe_45);
  float_of_str := float_of_str (demo_host probe_45);
  time_time := time_time (demo_host probe_45);
  open_wb := open_wb (demo_host probe_45);
  run_process := λ cmd w,
    match cmd with
    | "ffmpeg" :: _ => Ok (Completed 1 "" "Invalid data found when processing input", files w)
    | _ => demo_run probe_45 cmd w
    end;
  json_load := json_load (demo_host probe_45);
  unlink_error := unlink_error (demo_host probe_45);
  sort_order := sort_order (demo_host probe_45);
  sort_lists := sort_lists (demo_host probe_45);
  sort_type_error := sort_type_error (demo_host probe_45)
|}.

(** A machine on which [/tmp/locked] cannot be deleted. *)
Definition locked_file_host : host := {|
  b64decode := b64decode (demo_host probe_45);
  float_of_str := float_of_str (demo_host probe_45);
  time_time := time_time (demo_host probe_45);
  open_wb := open_wb (demo_host probe_45);
  run_process := run_process (demo_host probe_45);
  json_load := json_load (demo_host probe_45);
  unlink_error := λ path _,
    if String.eqb path "/tmp/locked" then
      Some "[Errno 1] Operation not permitted: '/tmp/locked'"
    else None;
  sort_order := sort_order (demo_host probe_45);
  sort_lists := sort_lists (demo_host probe_45);
  sort_type_error := sort_type_error (demo_host probe_45)
|}.



(** The machine of the 45 second clip with a rhubarb that exits with
    status 1 on the second chunk. *)
Definition bad_second_chunk_host : host := {|
  b64decode := b64decode (demo_host probe_45);
  float_of_str := float_of_str (demo_host probe_45);
  time_time := time_time (demo_host probe_45);
  open_wb := open_wb (demo_host probe_45);
  run_process := λ cmd w,
    match cmd with
    | "rhubarb" :: input :: _ =>
        if String.eqb input "/tmp/chunk-1700000000000-1.wav" then
          Ok (Completed 1 "" "Error: bad wave file", files w)
        else demo_run probe_45 cmd w
    | _ => demo_run probe_45 cmd w
    end;
  json_load := json_load (demo_host probe_45);
  unlink_error := unlink_error (demo_host probe_45);
  sort_order := sort_order (demo_host probe_45);
  sort_lists := sort_lists (demo_host probe_45);
  sort_type_error := sort_type_error (demo_host probe_45)
|}.

(** The machine of the 45 second clip on which ffmpeg fails to write the
    second chunk, and rhubarb exits with status 1 for want of it. *)
Definition missing_chunk_host : host := {|
  b64decode := b64decode (demo_host probe_45);
  float_of_str := float_of_str (demo_host probe_45);
  time_time := time_time (demo_host probe_45);
  open_wb := open_wb (demo_host probe_45);
  run_process := λ cmd w,
    match cmd with
    | "ffmpeg" :: _ =>
        if String.eqb (List.last cmd "") "/tmp/chunk-1700000000000-1.wav" then
          Ok (Completed 1 "" "Output file is empty", files w)
        else demo_run probe_45 cmd w
    | "rhubarb" :: input :: _ =>
        if String.eqb input "/tmp/chunk-1700000000000-1.wav" then
          Ok (Completed 1 "" "Error: could not open file", files w)
        else demo_run probe_45 cmd w
    | _ => demo_run probe_45 cmd w
    end;
  json_load := json_load (demo_host probe_45);
  unlink_error := unlink_error (demo_host probe_45);
  sort_order := sort_order (demo_host probe_45);
  sort_lists := sort_lists (demo_host probe_45);
  sort_type_error := sort_type_error (demo_host probe_45)
|}.

(** ** The run up to the loop over the chunks *)

(** The run has decoded its audio data, written and normalised it, and
    cut it into [chunks]; the loop over them starts in the world [w3]. *)
Definition segmented (h : host) (audio_data timestamp : string) (w : world)
    (chunks : list string) (w3 : world) : Prop :=
  ∃ audio_bytes w1 w2,
    b64decode h audio_data = Ok audio_bytes
    ∧ write_file h (input_path_of timestamp) audio_bytes w = (Ok tt, w1)
    ∧ convert_to_wav h (input_path_of timestamp) (wav_path_of timestamp) w1
      = (Ok (wav_path_of timestamp), w2)
    ∧ split_audio_into_chunks h (wav_path_of timestamp) timestamp w2 = (Ok chunks, w3).

(** A world with two files and no history. *)
Definition two_files_world : world := World {["/tmp/a"; "/tmp/b"]} [].

(** A world in which one of two files cannot be deleted by
    [locked_file_host]. *)
Definition locked_world : world := World {["/tmp/locked"; "/tmp/a"]} [].

(** * Properties *)

(** ** The ordering of keys *)

Lemma Qltb_asym x y : Qltb x y = true → Qltb y x = false.
Proof.
  unfold Qltb. rewrite !negb_true_iff, !negb_false_iff.
  intros Hyx. apply Qle_bool_iff.
  destruct (Qlt_le_dec y x) as [Hlt | Hle].
  - apply Qlt_le_weak in Hlt. apply Qle_bool_iff in Hlt. congruence.
  - exact Hle.
Qed.

Lemma Qltb_le_trans x y z :
  Qltb y x = false → Qltb z y = false → Qltb z x = false.
Proof.
  unfold Qltb. rewrite !negb_false_iff, !Qle_bool_iff.
  intros Hxy Hyz. eapply Qle_trans; eassumption.
Qed.

Lemma float_ltb_asym x y : float_ltb x y = true → float_ltb y x = false.
Proof.
  destruct x as [a|[]|], y as [b|[]|]; simpl; try done.
  apply Qltb_asym.
Qed.

Lemma float_ltb_le_trans x y z :
  y ≠ NaN →
  float_ltb y x = false → float_ltb z y = false → float_ltb z x = false.
Proof.
  destruct x as [a|[]|], y as [b|[]|], z as [c|[]|]; simpl; try done.
  intros _. apply Qltb_le_trans.
Qed.

Lemma string_ltb_lt s t : String.ltb s t = true ↔ OrderedTypeEx.String_as_OT.lt s t.
Proof.
  unfold String.ltb. rewrite <- OrderedTypeEx.String_as_OT.cmp_lt.
  unfold OrderedTypeEx.String_as_OT.cmp.
  destruct (String.compare s t); split; congruence.
Qed.

Lemma string_ltb_asym s t : String.ltb s t = true → String.ltb t s = false.
Proof.
  intros Hst. apply not_true_is_false. intros Hts.
  apply string_ltb_lt in Hst, Hts.
  pose proof (OrderedTypeEx.String_as_OT.lt_trans _ _ _ Hst Hts) as Hss.
  exact (OrderedTypeEx.String_as_OT.lt_not_eq _ _ Hss eq_refl).
Qed.

Lemma string_ltb_total s t :
  String.ltb s t = false → String.ltb t s = false → s = t.
Proof.
  unfold String.ltb. rewrite (String.compare_antisym t s).
  destruct (String.compare s t) eqn:Hc; simpl; try discriminate.
  intros _ _. by apply String.compare_eq_iff.
Qed.

Lemma string_ltb_le_trans s t u :
  String.ltb t s = false → String.ltb u t = false → String.ltb u s = false.
Proof.
  intros Hst Htu. apply not_true_is_false. intros Hus.
  destruct (String.ltb s t) eqn:Hlt.
  - apply string_ltb_lt in Hus, Hlt.
    pose proof (OrderedTypeEx.String_as_OT.lt_trans _ _ _ Hus Hlt) as Hut.
    apply string_ltb_lt in Hut. congruence.
  - assert (s = t) by by apply string_ltb_total. subst. congruence.
Qed.

(** A comparison with an answer is between two numbers or between two
    strings. *)
Lemma py_lt_Some a b r :
  py_lt a b = Some r →
  (∃ x y, as_float a = Some x ∧ as_float b = Some y ∧ r = float_ltb x y)
  ∨ (∃ s t, a = JStr s ∧ b = JStr t ∧ r = String.ltb s t).
Proof.
  unfold py_lt. intros H.
  destruct (as_float a) as [x|] eqn:Ha, (as_float b) as [y|] eqn:Hb.
  - left. exists x, y. by simplify_eq.
  - destruct a, b; simplify_eq.
  - destruct a, b; simplify_eq.
  - destruct a, b; simplify_eq. right. by eexists _, _.
Qed.

Lemma py_lt_floats a b x y :
  as_float a = Some x → as_float b = Some y → py_lt a b = Some (float_ltb x y).
Proof. unfold py_lt. by intros -> ->. Qed.

Lemma as_float_nan a : as_float a = Some NaN → is_nan a = true.
Proof. by destruct a as [|[]| | | | | | |]. Qed.

Lemma py_lt_asym a b : py_lt a b = Some true → py_lt b a = Some false.
Proof.
  intros H. destruct (py_lt_Some _ _ _ H) as [(x & y & Ha & Hb & Hr) | (s & t & -> & -> & Hr)].
  - rewrite (py_lt_floats _ _ _ _ Hb Ha). f_equal. by apply float_ltb_asym.
  - unfold py_lt; simpl. f_equal. by apply string_ltb_asym.
Qed.

Lemma py_le_trans a b c :
  is_nan b = false →
  py_lt b a = Some false → py_lt c b = Some false → py_lt c a = Some false.
Proof.
  intros Hnan Hab Hbc.
  destruct (py_lt_Some _ _ _ Hab) as [(y & x & Hb & Ha & Hr) | (t & s & -> & -> & Hr)];
    destruct (py_lt_Some _ _ _ Hbc) as [(z & y' & Hc & Hb' & Hr') | (u & t' & -> & Hb' & Hr')];
    simplify_eq.
  - rewrite (py_lt_floats _ _ _ _ Hc Ha). f_equal.
    apply float_ltb_le_trans with y; [|done..].
    intros ->. apply as_float_nan in Hb. congruence.
  - unfold py_lt; simpl. f_equal. by apply string_ltb_le_trans with t'.
Qed.

Lemma keys_equal_not_lt k a b :
  keys_equal k a = true → keys_equal k b = true → py_lt a b ≠ Some true.
Proof.
  unfold keys_equal. intros Ha Hb Hab.
  destruct (py_lt k a) as [[]|] eqn:Hka; try discriminate.
  destruct (py_lt a k) as [[]|] eqn:Hak; try discriminate.
  destruct (py_lt k b) as [[]|] eqn:Hkb; try discriminate.
  destruct (py_lt b k) as [[]|] eqn:Hbk; try discriminate.
  apply negb_true_iff, orb_false_iff in Ha as [Hk _].
  pose proof (py_le_trans _ _ _ Hk Hkb Hak) as Hab'. congruence.
Qed.

(** Two numbers other than NaN, or two strings, always compare. *)
Lemma ordered_numbers_compare a b :
  is_ordered_number a = true → is_ordered_number b = true →
  ∃ r, py_lt a b = Some r.
Proof.
  unfold is_ordered_number, py_lt. intros Ha Hb.
  destruct (as_float a), (as_float b); try done. by eexists.
Qed.

Lemma strings_compare a b :
  is_string a = true → is_string b = true → ∃ r, py_lt a b = Some r.
Proof. destruct a, b; try done. intros _ _. by eexists. Qed.

Lemma ordered_number_not_nan a : is_ordered_number a = true → is_nan a = false.
Proof. by destruct a. Qed.

Lemma string_not_nan a : is_string a = true → is_nan a = false.
Proof. by destruct a. Qed.

(** ** The stable sort *)

Section Sorting.
(** A kind of keys on which [<] always answers and none is NaN. *)
Context (C : json → Prop).
Context (C_compare : ∀ a b, C a → C b → ∃ r, py_lt a b = Some r).
Context (C_not_nan : ∀ a, C a → is_nan a = false).

Let keyed_le (p q : json * json) : Prop := key_le (fst p) (fst q).
Let at_key (k : json) (p : json * json) : bool := keys_equal k (fst p).

Lemma insert_by_key_perm kx l : insert_by_key kx l ≡ₚ kx :: l.
Proof.
  induction l as [|ky rest IH]; simpl; [done|].
  destruct (key_ltb ky.1 kx.1); [|done].
  rewrite IH. apply Permutation_swap.
Qed.

Lemma sort_keyed_perm l : sort_keyed l ≡ₚ l.
Proof.
  induction l as [|kx rest IH]; simpl; [done|].
  by rewrite insert_by_key_perm, IH.
Qed.

Lemma key_ltb_true a b : key_ltb a b = true → py_lt a b = Some true.
Proof. unfold key_ltb. by destruct (py_lt a b) as [[]|]. Qed.

Lemma key_ltb_false a b : C a → C b → key_ltb a b = false → py_lt a b = Some false.
Proof.
  intros Ha Hb. unfold key_ltb. destruct (C_compare a b Ha Hb) as [[] ->]; done.
Qed.

Lemma insert_by_key_sorted kx l :
  C kx.1 → Forall (λ p, C p.1) l →
  StronglySorted keyed_le l → StronglySorted keyed_le (insert_by_key kx l).
Proof.
  intros Hkx. induction 1 as [|ky rest Hky Hrest IH]; simpl; intros Hs.
  - repeat constructor.
  - apply StronglySorted_inv in Hs as [Hsrest Hall].
    destruct (key_ltb ky.1 kx.1) eqn:Hlt.
    + constructor; [by apply IH|].
      rewrite insert_by_key_perm. constructor; [|done].
      by apply py_lt_asym, key_ltb_true.
    + apply key_ltb_false in Hlt; [|done..].
      constructor; [by constructor|].
      constructor; [exact Hlt|].
      eapply Forall_impl; [exact Hall|].
      intros kz Hz. eapply py_le_trans; [by apply C_not_nan|exact Hlt|exact Hz].
Qed.

Lemma insert_by_key_stable kx l k :
  List.filter (at_key k) (insert_by_key kx l) = List.filter (at_key k) (kx :: l).
Proof.
  induction l as [|ky rest IH]; simpl; [done|].
  destruct (key_ltb ky.1 kx.1) eqn:Hlt; [|done].
  simpl. rewrite IH. simpl.
  destruct (at_key k ky) eqn:Hy, (at_key k kx) eqn:Hx; try done.
  apply key_ltb_true in Hlt. by destruct (keys_equal_not_lt k ky.1 kx.1).
Qed.

Lemma sort_keyed_stable l k :
  List.filter (at_key k) (sort_keyed l) = List.filter (at_key k) l.
Proof.
  induction l as [|kx rest IH]; simpl; [done|].
  rewrite insert_by_key_stable. simpl. by rewrite IH.
Qed.

Lemma sort_keyed_sorted l :
  Forall (λ p, C p.1) l → StronglySorted keyed_le (sort_keyed l).
Proof.
  induction 1 as [|kx rest Hkx Hrest IH]; simpl; [constructor|].
  apply insert_by_key_sorted; [done| |done].
  by rewrite sort_keyed_perm.
Qed.
End Sorting.

Lemma with_keys_correct key l kl :
  with_keys key l = Ok kl →
  map snd kl = l ∧ Forall (λ p, key p.2 = Ok p.1) kl.
Proof.
  revert kl. induction l as [|x rest IH]; simpl; intros kl H.
  - by simplify_eq.
  - destruct (key x) as [k|] eqn:Hk; simpl in H; [|done].
    destruct (with_keys key rest) as [rest'|]; simpl in H; simplify_eq.
    destruct (IH _ eq_refl) as [Hm Hf]. simpl. split; [by f_equal|].
    by constructor.
Qed.

Lemma keyed_filter (kl : list (json * json)) k :
  Forall (λ p, start_key p.2 = Ok p.1) kl →
  List.filter (same_start k) (map snd kl)
  = map snd (List.filter (λ p, keys_equal k p.1) kl).
Proof.
  induction 1 as [|p kl Hp _ IH]; [done|]. simpl.
  unfold same_start at 1. rewrite Hp.
  destruct (keys_equal k p.1); simpl; by rewrite IH.
Qed.

Lemma keyed_sorted (kl : list (json * json)) :
  Forall (λ p, start_key p.2 = Ok p.1) kl →
  StronglySorted (λ p q, key_le p.1 q.1) kl → StronglySorted start_le (map snd kl).
Proof.
  intros Hk Hs. induction Hs as [|p kl Hs IH Hp]; simpl; [constructor|].
  apply Forall_cons in Hk as [Hkp Hk].
  constructor; [by apply IH|].
  apply Forall_map. rewrite Forall_forall in Hk, Hp. apply Forall_forall.
  intros q Hq. exists p.1, q.1. split_and!; [done|by apply Hk|by apply Hp].
Qed.

(** On keys that are totally ordered the stable insertion sorts. *)
Lemma sort_keyed_correct kl :
  totally_ordered (map fst kl) = true →
  StronglySorted (λ p q, key_le p.1 q.1) (sort_keyed kl)
  ∧ ∀ k, List.filter (λ p, keys_equal k p.1) (sort_keyed kl)
         = List.filter (λ p, keys_equal k p.1) kl.
Proof.
  intros Hord. split; [|intros k; apply sort_keyed_stable].
  apply orb_true_iff in Hord as [Hnum|Hstr].
  - apply (sort_keyed_sorted (λ a, is_ordered_number a = true)).
    + intros. by apply ordered_numbers_compare.
    + intros. by apply ordered_number_not_nan.
    + rewrite forallb_forall in Hnum. apply Forall_forall. intros p Hp.
      apply Hnum, in_map, list_elem_of_In, Hp.
  - apply (sort_keyed_sorted (λ a, is_string a = true)).
    + intros. by apply strings_compare.
    + intros. by apply string_not_nan.
    + rewrite forallb_forall in Hstr. apply Forall_forall. intros p Hp.
      apply Hstr, in_map, list_elem_of_In, Hp.
Qed.

Lemma totally_ordered_no_list keys :
  totally_ordered keys = true → existsb is_list keys = false.
Proof.
  intros Hord. apply not_true_is_false. intros (k & Hin & Hk)%existsb_exists.
  apply orb_true_iff in Hord as [H|H]; rewrite forallb_forall in H;
    specialize (H k Hin); by destruct k.
Qed.

Lemma omap_lookup_seq {A} (l0 l : list A) :
  omap (λ i, (l0 ++ l) !! i) (seq (length l0) (length l)) = l.
Proof.
  revert l0. induction l as [|x l IH]; intros l0; simpl; [done|].
  rewrite list_lookup_middle by done. simpl. f_equal.
  specialize (IH (l0 ++ [x])). rewrite length_app, <- app_assoc in IH.
  simpl in IH. by rewrite Nat.add_1_r in IH.
Qed.

(** An order applied to a list rearranges it and nothing more. *)
Lemma apply_order_perm {A} (order : list nat) (l : list A) :
  apply_order order l ≡ₚ l.
Proof.
  unfold apply_order. case_bool_decide as Hperm; [|done].
  rewrite Hperm. pose proof (omap_lookup_seq [] l) as Hl. simpl in Hl.
  by rewrite Hl.
Qed.

(** [list.sort] only rearranges the list. *)
Lemma list_sort_perm h key l l' : list_sort h key l = Ok l' → l' ≡ₚ l.
Proof.
  unfold list_sort. intros H.
  destruct (with_keys key l) as [kl|] eqn:Hkl; simpl in H; [|done].
  destruct (with_keys_correct _ _ _ Hkl) as [Hsnd _].
  repeat case_match; simplify_eq; try done.
  - destruct (sort_lists h _) as [order|]; simpl in *; simplify_eq.
    by rewrite apply_order_perm.
  - by rewrite sort_keyed_perm.
  - by rewrite apply_order_perm.
Qed.

(** On cues whose starts are totally ordered [list.sort] returns, sorted
    by start, cues of equal start in the order they came in. *)
Lemma list_sort_ordered h l :
  ordered_starts l = true →
  ∃ l', list_sort h start_key l = Ok l' ∧ stably_sorted_by_start l l'.
Proof.
  unfold ordered_starts, list_sort. intros Hord.
  destruct (with_keys start_key l) as [kl|] eqn:Hkl; [|done]. simpl.
  destruct (with_keys_correct _ _ _ Hkl) as [Hsnd Hkeys].
  destruct (Nat.ltb (length kl) 2) eqn:Hlen.
  - exists l. split; [done|]. apply Nat.ltb_lt in Hlen.
    split_and!; [|done..].
    destruct l as [|x [|y l]]; [constructor|repeat constructor|].
    apply (f_equal length) in Hsnd. rewrite length_map in Hsnd. simpl in Hsnd. lia.
  - rewrite (totally_ordered_no_list _ Hord), Hord.
    eexists. split; [done|].
    destruct (sort_keyed_correct _ Hord) as [Hs Hf].
    assert (Forall (λ p, start_key p.2 = Ok p.1) (sort_keyed kl)) as Hkeys'
      by by rewrite sort_keyed_perm.
    rewrite <- Hsnd. split_and!.
    + by apply keyed_sorted.
    + by rewrite sort_keyed_perm.
    + intros k. rewrite !keyed_filter by done. by rewrite Hf.
Qed.

Lemma well_formed_ordered l :
  forallb well_formed_cue l = true → ordered_starts l = true.
Proof.
  intros Hl. unfold ordered_starts.
  assert (∃ kl, with_keys start_key l = Ok kl
                ∧ forallb is_ordered_number (map fst kl) = true) as (kl & -> & Hkl).
  { induction l as [|c l IH]; simpl; [by eexists|].
    apply andb_true_iff in Hl as [Hc Hl]. destruct (IH Hl) as (kl & -> & Hkl).
    unfold well_formed_cue in Hc.
    destruct (start_key c) as [k|]; [|done]. simpl.
    destruct (as_number k) as [x|] eqn:Hk; [|done].
    eexists. split; [done|]. simpl. rewrite Hkl.
    by destruct k as [|[]| | | | | | |]. }
  unfold totally_ordered. by rewrite Hkl.
Qed.

Lemma list_sort_returns h l :
  forallb well_formed_cue l = true → ∃ l', list_sort h start_key l = Ok l'.
Proof.
  intros Hl. destruct (list_sort_ordered h l (well_formed_ordered _ Hl)) as (l' & ? & _).
  by exists l'.
Qed.

(** Two keys of which one may stand before the other are two numbers or
    two strings. *)
Lemma key_le_kind a b :
  key_le a b →
  (is_float a = true ∧ is_float b = true) ∨ (is_string a = true ∧ is_string b = true).
Proof.
  unfold key_le, is_float. intros H.
  destruct (py_lt_Some _ _ _ H) as [(y & x & -> & -> & _) | (t & s & -> & -> & _)];
    [by left|by right].
Qed.

Lemma float_not_string a : is_float a = true → is_string a = false.
Proof. by destruct a. Qed.

Lemma sorted_keys_one_kind a b keys :
  Sorted key_le (a :: b :: keys) →
  forallb is_float (a :: b :: keys) = true ∨ forallb is_string (a :: b :: keys) = true.
Proof.
  revert a b. induction keys as [|c keys IH]; intros a b Hs;
    apply Sorted_inv in Hs as [Hs Hhd]; apply HdRel_inv in Hhd.
  - destruct (key_le_kind _ _ Hhd) as [[Ha Hb]|[Ha Hb]]; simpl; rewrite Ha, Hb; auto.
  - destruct (key_le_kind _ _ Hhd) as [[Ha Hb]|[Ha Hb]];
      destruct (IH _ _ Hs) as [Hrest|Hrest];
      change (forallb ?f (a :: ?l)) with (f a && forallb f l);
      rewrite ?Ha, ?Hrest; auto; exfalso; simpl in Hrest;
      apply andb_true_iff in Hrest as [Hb' _].
    + apply float_not_string in Hb. congruence.
    + apply float_not_string in Hb'. congruence.
Qed.

Lemma sorted_ascending_run keys : Sorted key_le keys → ascending_run keys = true.
Proof.
  induction 1 as [|a rest Hrest IH Hhd]; [done|].
  destruct Hhd as [|b rest Hab]; [done|].
  simpl. unfold key_le in Hab. by rewrite Hab.
Qed.

Lemma floats_no_list keys : forallb is_float keys = true → existsb is_list keys = false.
Proof.
  intros Hf. apply not_true_is_false. intros (k & Hin & Hk)%existsb_exists.
  rewrite forallb_forall in Hf. specialize (Hf k Hin). by destruct k.
Qed.

Lemma insert_by_key_front kx l :
  match l with [] => True | ky :: _ => key_le kx.1 ky.1 end →
  insert_by_key kx l = kx :: l.
Proof.
  destruct l as [|ky rest]; simpl; [done|]. unfold key_le, key_ltb. by intros ->.
Qed.

Lemma sort_keyed_sorted_id l :
  Sorted (λ p q, key_le p.1 q.1) l → sort_keyed l = l.
Proof.
  induction 1 as [|kx rest Hrest IH Hhd]; simpl; [done|].
  rewrite IH. apply insert_by_key_front. by destruct Hhd.
Qed.

(** Cues in which no start is smaller than the one before it are left as
    they are. *)
Lemma list_sort_sorted_id h l :
  Forall (λ c, ∃ k, start_key c = Ok k) l →
  Sorted start_le l →
  list_sort h start_key l = Ok l.
Proof.
  intros Hkeys Hsorted. unfold list_sort.
  assert (∃ kl, with_keys start_key l = Ok kl ∧ map snd kl = l
                ∧ Sorted (λ p q, key_le p.1 q.1) kl
                ∧ Sorted key_le (map fst kl)) as (kl & -> & Hsnd & Hkl & Hfst).
  { induction Hsorted as [|c l Hl IH Hhd]; [by exists []|].
    apply Forall_cons in Hkeys as [[k Hk] Hkeys].
    destruct (IH Hkeys) as (kl & Hwk & Hsnd & Hkl & Hfst).
    exists ((k, c) :: kl). simpl. rewrite Hk, Hwk. simpl.
    destruct (with_keys_correct _ _ _ Hwk) as [_ Hall].
    assert (match kl with [] => True | p :: _ => key_le k p.1 end) as Hfront.
    { destruct kl as [|[k' x] kl']; [done|].
      apply Forall_cons in Hall as [Hx _]. simpl in Hx, Hsnd.
      rewrite <- Hsnd in Hhd. apply HdRel_inv in Hhd as (k1 & k2 & Hk1 & Hk2 & Hle).
      simpl. congruence. }
    split_and!; [done|by rewrite Hsnd|..];
      (constructor; [done|]); by destruct kl; constructor. }
  simpl. destruct (Nat.ltb (length kl) 2) eqn:Hlen; [done|].
  rewrite (sort_keyed_sorted_id _ Hkl), Hsnd, (sorted_ascending_run _ Hfst).
  destruct (totally_ordered (map fst kl)) eqn:Hord.
  { by rewrite (totally_ordered_no_list _ Hord). }
  assert (forallb is_float (map fst kl) = true) as Hfloat.
  { destruct kl as [|p [|q kl]]; [done..|].
    destruct (sorted_keys_one_kind _ _ _ Hfst) as [Hfloat|Hstr]; [done|].
    change (forallb is_string (map fst (p :: q :: kl)) = true) in Hstr.
    unfold totally_ordered in Hord. by rewrite Hstr, orb_true_r in Hord. }
  by rewrite (floats_no_list _ Hfloat), Hfloat.
Qed.

Lemma plain_start_key c k :
  plain_start c = true → start_key c = Ok k → is_nan k = false ∧ is_list k = false.
Proof.
  unfold plain_start. intros H Hk. rewrite Hk in H.
  by apply negb_true_iff, orb_false_iff in H.
Qed.

Lemma plain_keys l kl :
  plain_starts l = true → with_keys start_key l = Ok kl →
  Forall (λ k, is_nan k = false ∧ is_list k = false) (map fst kl).
Proof.
  intros Hplain Hkl. destruct (with_keys_correct _ _ _ Hkl) as [<- Hkeys].
  unfold plain_starts in Hplain. rewrite forallb_forall in Hplain.
  apply Forall_map, Forall_forall. intros p Hp.
  apply (plain_start_key p.2).
  - apply Hplain, in_map, list_elem_of_In, Hp.
  - rewrite Forall_forall in Hkeys. by apply Hkeys.
Qed.

(** Whenever [list.sort] returns on cues of which none starts at NaN or at
    a list, they are sorted by start, cues of equal start in the order
    they came in. *)
Lemma list_sort_plain h l l' :
  list_sort h start_key l = Ok l' → plain_starts l = true →
  stably_sorted_by_start l l'.
Proof.
  intros Hsort Hplain.
  destruct (with_keys start_key l) as [kl|] eqn:Hkl;
    [|unfold list_sort in Hsort; by rewrite Hkl in Hsort].
  pose proof (plain_keys _ _ Hplain Hkl) as Hkeys.
  destruct (with_keys_correct _ _ _ Hkl) as [Hsnd _].
  destruct (Nat.ltb (length kl) 2) eqn:Hlen.
  { unfold list_sort in Hsort. rewrite Hkl in Hsort. simpl in Hsort.
    rewrite Hlen in Hsort. injection Hsort as Heq. subst l'.
    apply Nat.ltb_lt in Hlen. split_and!; [|done..].
    destruct l as [|x [|y l]]; [constructor|repeat constructor|].
    apply (f_equal length) in Hsnd. rewrite length_map in Hsnd. simpl in Hsnd. lia. }
  assert (ordered_starts l = true) as Hord.
  { unfold ordered_starts. rewrite Hkl.
    unfold list_sort in Hsort. rewrite Hkl in Hsort. simpl in Hsort.
    rewrite Hlen in Hsort.
    assert (existsb is_list (map fst kl) = false) as Hnolist.
    { apply not_true_is_false. intros (k & Hin & Hk)%existsb_exists.
      rewrite Forall_forall in Hkeys.
      destruct (Hkeys k (proj2 (list_elem_of_In _ _) Hin)). congruence. }
    rewrite Hnolist in Hsort.
    destruct (totally_ordered (map fst kl)) eqn:Htotal; [done|].
    destruct (forallb is_float (map fst kl)) eqn:Hfloat; [|done].
    unfold totally_ordered in Htotal. apply orb_false_iff in Htotal as [Hnum _].
    assert (forallb is_ordered_number (map fst kl) = true) as Hnum'; [|congruence].
    apply forallb_forall. intros k Hin.
    rewrite forallb_forall in Hfloat. specialize (Hfloat k Hin).
    rewrite Forall_forall in Hkeys.
    destruct (Hkeys k (proj2 (list_elem_of_In _ _) Hin)) as [Hnan _].
    by destruct k. }
  destruct (list_sort_ordered h l Hord) as (l'' & Hsort' & Hstable).
  rewrite Hsort in Hsort'. by simplify_eq.
Qed.


(** ** The request handler *)

Lemma lstrip_all_space s : all_space s = true → lstrip s = "".
Proof.
  induction s as [|c s IH]; simpl; [done|].
  intros [Hc Hs]%andb_true_iff. rewrite Hc. by apply IH.
Qed.

Lemma strip_all_space s : all_space s = true → strip s = "".
Proof. intros H. unfold strip. by rewrite lstrip_all_space. Qed.

(** The monad's operations, unfolded down to the match on the world. *)
Ltac unfold_io :=
  unfold try_except, bind, lift, ret, raise, print, now, subprocess_run.

(** The test of line 32 on blank audio data. *)
Lemma blank_test audio_data :
  all_space audio_data = true →
  negb (truthy (JStr audio_data)) || String.eqb (strip audio_data) "" = true.
Proof.
  intros Hblank. rewrite (strip_all_space _ Hblank). apply orb_true_r.
Qed.

(** C6: a wake-up call is answered with the readiness payload, whatever
    the audio data and whatever the host would do; the world is left as it
    was, so no file is written and no program is started. *)
Theorem wake_up_bypasses_pipeline (h : host) (audio_data : string) (w : world) :
  predict h audio_data true w = (Ok (ready_payload), w)
  ∧ ready_payload
    = JObj [("status", JStr "OK"); ("message", JStr "Rhubarb model is ready");
            ("mouthCues", JArr [])].
Proof.
  split; [|reflexivity].
  unfold predict. unfold_io. reflexivity.
Qed.

(** C7: without wake-up, empty or whitespace-only audio data is answered
    with the "No audio data provided" error and an empty cue list; the
    world is left as it was. *)
Theorem blank_audio_rejected (h : host) (audio_data : string) (w : world) :
  all_space audio_data = true →
  predict h audio_data false w
  = (Ok (JObj [("error", JStr "No audio data provided"); ("mouthCues", JArr [])]), w).
Proof.
  intros Hblank. unfold predict. unfold_io.
  by rewrite (blank_test _ Hblank).
Qed.

Lemma blank_audio_rejected_witness :
  let audio := String " " (String "009" (String "010" (String "160" ""))) in
  all_space audio = true
  ∧ predict (demo_host probe_45) audio false empty_world
    = (Ok (JObj [("error", JStr "No audio data provided"); ("mouthCues", JArr [])]),
       empty_world).
Proof.
  split; [reflexivity|]. by apply blank_audio_rejected.
Defined.

(** C10: the wake-up test comes first: with wake-up set, blank audio data
    still gets the readiness payload, which is not the "No audio data
    provided" answer the same audio gets without wake-up. *)
Theorem wake_up_before_validation (h : host) (audio_data : string) (w : world) :
  all_space audio_data = true →
  predict h audio_data true w = (Ok ready_payload, w)
  ∧ predict h audio_data false w = (Ok (error_payload "No audio data provided"), w)
  ∧ ready_payload ≠ error_payload "No audio data provided".
Proof.
  intros Hblank. split_and!.
  - unfold predict. unfold_io. reflexivity.
  - unfold predict. unfold_io. by rewrite (blank_test _ Hblank).
  - unfold ready_payload, error_payload. congruence.
Qed.

Lemma wake_up_before_validation_witness :
  all_space "  " = true
  ∧ predict (demo_host probe_45) "  " true empty_world = (Ok ready_payload, empty_world).
Proof.
  split; [reflexivity|].
  apply (wake_up_before_validation (demo_host probe_45) "  " empty_world). reflexivity.
Defined.

Lemma rstrip_empty s : rstrip s = "" → all_space s = true.
Proof.
  induction s as [|c s IH]; simpl; [done|].
  destruct (rstrip s); [|done].
  destruct (is_space c); [|done]. intros _. by apply IH.
Qed.

Lemma lstrip_space s : all_space (lstrip s) = true → all_space s = true.
Proof.
  induction s as [|c s IH]; simpl; [done|].
  destruct (is_space c) eqn:Hc; simpl; [done|]. by rewrite Hc.
Qed.

Lemma strip_empty s : strip s = "" → all_space s = true.
Proof. intros H. by apply lstrip_space, rstrip_empty. Qed.

(** ** The pipeline *)

Lemma cleanup_step h file_path rest w :
  ∃ w1,
    cleanup_temp_files h (file_path :: rest) w = cleanup_temp_files h rest w1
    ∧ files w1 ⊆ files w
    ∧ files w ∖ {[file_path]} ⊆ files w1
    ∧ (file_path ∉ files w → w1 = w)
    ∧ (unlink_error h file_path w = None → file_path ∉ files w1)
    ∧ ∃ evs, appends w w1 evs ∧ unlinked evs ⊆ [file_path] ∧ spawned evs = [].
Proof.
  cbn [cleanup_temp_files]. unfold os_path_exists, os_unlink. unfold_io.
  destruct (decide (file_path ∈ files w)) as [Hin|Hin].
  - rewrite !(bool_decide_true _ Hin).
    destruct (unlink_error h file_path w) as [msg|] eqn:Herr.
    + eexists. split; [done|]. simpl. split_and!; [set_solver..|done|].
      exists [EPrint ("Failed to delete " +:+ file_path +:+ ": " +:+ msg)].
      split_and!; [done|set_solver|done].
    + eexists. split; [done|]. simpl. split_and!; [set_solver..|].
      exists [EUnlink file_path]. split_and!; [done|set_solver|done].
  - rewrite !(bool_decide_false _ Hin).
    exists w. split; [done|]. split_and!; [set_solver..|done|done|].
    exists []. unfold appends. rewrite app_nil_r. split_and!; [done|set_solver|done].
Qed.

Lemma cleanup_post h file_paths w :
  ∃ w',
    cleanup_temp_files h file_paths w = (Ok tt, w')
    ∧ files w' ⊆ files w
    ∧ ∀ path, path ∈ file_paths → (∀ w0, unlink_error h path w0 = None) →
        path ∉ files w'.
Proof.
  revert w. induction file_paths as [|file_path rest IH]; intros w.
  - exists w. split_and!; [done..|]. by intros ? ?%elem_of_nil.
  - destruct (cleanup_step h file_path rest w) as (w1 & -> & Hsub & _ & _ & Hgone & _).
    destruct (IH w1) as (w' & -> & Hsub' & Hrest).
    exists w'. split_and!; [done|set_solver|].
    intros path [->|Hin]%elem_of_cons Hok; [|by apply Hrest].
    specialize (Hgone (Hok w)). set_solver.
Qed.

Lemma convert_to_wav_value h input_path output_path w r w' :
  convert_to_wav h input_path output_path w = (Ok r, w') → r = output_path.
Proof.
  unfold convert_to_wav. unfold_io. intros H.
  repeat case_match; by simplify_eq.
Qed.

(** A run returns exactly when it gets through the segmentation, the loop
    over the chunks and the merge; it then returns the merged cues under
    the key [mouthCues]. *)
Lemma process_audio_returns h audio_data timestamp w r w' :
  process_audio_with_rhubarb h audio_data timestamp w = (Ok r, w') →
  ∃ chunks w3 all_results w4 mouth_cues,
    segmented h audio_data timestamp w chunks w3
    ∧ analyze_chunks h (output_path_of timestamp) 0 chunks w3 = (Ok all_results, w4)
    ∧ merge_results h all_results = Ok mouth_cues
    ∧ r = JObj [("mouthCues", JArr mouth_cues)].
Proof.
  unfold process_audio_with_rhubarb.
  fold (input_path_of timestamp) (wav_path_of timestamp) (output_path_of timestamp).
  unfold_io. intros H. repeat case_match; simplify_eq.
  match goal with
  | Hconv : convert_to_wav _ _ _ _ = (Ok ?p, _) |- _ =>
      pose proof (convert_to_wav_value _ _ _ _ _ _ Hconv); subst p
  end.
  match goal with
  | Hwrite : write_file _ _ _ _ = (Ok ?u, _) |- _ => destruct u
  end.
  do 5 eexists. split_and!; [|done..]. by do 3 eexists.
Qed.

Lemma process_audio_reaches h audio_data timestamp w chunks w3 all_results w4
    mouth_cues :
  segmented h audio_data timestamp w chunks w3 →
  analyze_chunks h (output_path_of timestamp) 0 chunks w3 = (Ok all_results, w4) →
  merge_results h all_results = Ok mouth_cues →
  (process_audio_with_rhubarb h audio_data timestamp w).1
  = Ok (JObj [("mouthCues", JArr mouth_cues)]).
Proof.
  intros (audio_bytes & w1 & w2 & Hdecode & Hwrite & Hconv & Hsplit) Hloop Hmerge.
  unfold process_audio_with_rhubarb.
  fold (input_path_of timestamp) (wav_path_of timestamp) (output_path_of timestamp).
  unfold_io. rewrite Hdecode, Hwrite, Hconv, Hsplit, Hloop, Hmerge.
  destruct (cleanup_post h
              [input_path_of timestamp; wav_path_of timestamp; output_path_of timestamp]
              w4) as (w' & -> & _).
  done.
Qed.

Lemma segmented_functional h audio_data timestamp w chunks1 w1 chunks2 w2 :
  segmented h audio_data timestamp w chunks1 w1 →
  segmented h audio_data timestamp w chunks2 w2 →
  chunks1 = chunks2 ∧ w1 = w2.
Proof.
  intros (b1 & u1 & v1 & Hd1 & Hw1 & Hc1 & Hs1) (b2 & u2 & v2 & Hd2 & Hw2 & Hc2 & Hs2).
  rewrite Hd1 in Hd2. simplify_eq.
  rewrite Hw1 in Hw2. simplify_eq.
  rewrite Hc1 in Hc2. simplify_eq.
  rewrite Hs1 in Hs2. by simplify_eq.
Qed.

(** C8: [predict] returns an object with a [mouthCues] list for every
    request and every behaviour of the host, and never raises; when the
    pipeline raises [e], the object is [{"error": e, "mouthCues": []}]. *)
Theorem predict_never_raises (h : host) (audio_data : string) (wake_up : bool)
    (w : world) :
  ∃ obj w',
    predict h audio_data wake_up w = (Ok obj, w')
    ∧ (∃ cues, py_getitem obj "mouthCues" = Ok (JArr cues))
    ∧ ∀ e w1,
        wake_up = false → all_space audio_data = false →
        process_audio_with_rhubarb h audio_data (timestamp_at h w) w = (Raise e, w1) →
        obj = JObj [("error", JStr e); ("mouthCues", JArr [])] ∧ w' = w1.
Proof.
  destruct wake_up.
  { exists ready_payload, w. split_and!; [done|by exists []|done]. }
  destruct (all_space audio_data) eqn:Hblank.
  { exists (error_payload "No audio data provided"), w.
    split_and!; [|by exists []|done].
    unfold predict. unfold_io. by rewrite (blank_test _ Hblank). }
  assert (negb (truthy (JStr audio_data)) || String.eqb (strip audio_data) "" = false)
    as Hcond.
  { apply orb_false_iff. split.
    - destruct audio_data; [done|]. done.
    - apply String.eqb_neq. intros Hs%strip_empty. congruence. }
  unfold predict. unfold_io. rewrite Hcond.
  fold (timestamp_at h w).
  destruct (process_audio_with_rhubarb h audio_data (timestamp_at h w) w)
    as [[r|e] w1] eqn:Hrun.
  - destruct (process_audio_returns _ _ _ _ _ _ Hrun) as (?&?&?&?&cues&_&_&_&->).
    exists (JObj [("mouthCues", JArr cues)]), w1.
    split_and!; [done|by exists cues|done].
  - exists (error_payload e), w1.
    split_and!; [done|by exists []|]. intros e' w1' _ _ ?. by simplify_eq.
Qed.

Lemma predict_never_raises_witness :
  ∃ obj w',
    predict (demo_host probe_45) "!!!" false empty_world = (Ok obj, w')
    ∧ obj = JObj [("error", JStr "Incorrect padding"); ("mouthCues", JArr [])].
Proof.
  destruct (predict_never_raises (demo_host probe_45) "!!!" false empty_world)
    as (obj & w' & Hrun & _ & Hfatal).
  exists obj, w'. split; [exact Hrun|].
  apply (Hfatal "Incorrect padding" empty_world); reflexivity.
Defined.

(** ** The analyzer adapter *)

Lemma run_rhubarb_returns h input_path output_path w :
  ∃ r w', run_rhubarb h input_path output_path w = (Ok r, w').
Proof.
  unfold run_rhubarb. unfold_io.
  repeat case_match; simplify_eq; eauto.
Qed.

Lemma run_rhubarb_failure h input_path output_path w :
  analysis_fails h input_path output_path w = true →
  (run_rhubarb h input_path output_path w).1 = Ok no_cues.
Proof.
  unfold analysis_fails, run_rhubarb. unfold_io. unfold log. simpl.
  destruct (run_process h _ _) as [[p fs]|msg]; simpl; [|done].
  destruct (bool_decide (returncode p ≠ 0%Z)); simpl; [done|].
  by destruct (read_json h output_path _) as [[data|msg] w1].
Qed.

(** C4: when rhubarb cannot be started, exits non-zero, or leaves an
    output that cannot be read and parsed, [run_rhubarb] does not raise:
    it prints a diagnostic and returns [{"mouthCues": []}]. *)
Theorem run_rhubarb_absorbs_failure (h : host) (input_path output_path : string)
    (w : world) :
  analysis_fails h input_path output_path w = true →
  ∃ w' msg,
    run_rhubarb h input_path output_path w = (Ok (JObj [("mouthCues", JArr [])]), w')
    ∧ trace w' = trace w ++ [ESpawn (rhubarb_cmd input_path output_path); EPrint msg].
Proof.
  unfold analysis_fails, run_rhubarb. unfold_io. unfold log.
  simpl.
  destruct (run_process h _ _) as [[p fs]|msg]; simpl.
  - destruct (bool_decide (returncode p ≠ 0%Z)); simpl.
    + intros _. eexists _, _. split; [done|]. simpl. by rewrite <- app_assoc.
    + destruct (read_json h output_path _) as [[data|msg] w1] eqn:Hread; [done|].
      intros _. eexists _, _. split; [done|]. simpl.
      unfold read_json in Hread. case_match; simplify_eq; simpl;
        by rewrite <- app_assoc.
  - intros _. eexists _, _. split; [done|]. simpl. by rewrite <- app_assoc.
Qed.

Lemma run_rhubarb_absorbs_failure_witness :
  analysis_fails broken_rhubarb_host "/tmp/chunk-1-0.wav" "/tmp/output-1.json-chunk0.json"
    empty_world = true
  ∧ ∃ w' msg,
      run_rhubarb broken_rhubarb_host "/tmp/chunk-1-0.wav"
        "/tmp/output-1.json-chunk0.json" empty_world
      = (Ok (JObj [("mouthCues", JArr [])]), w')
      ∧ trace w'
        = trace empty_world
          ++ [ESpawn (rhubarb_cmd "/tmp/chunk-1-0.wav" "/tmp/output-1.json-chunk0.json");
              EPrint msg].
Proof.
  split; [reflexivity|].
  apply (run_rhubarb_absorbs_failure broken_rhubarb_host). reflexivity.
Defined.

(** ** The merge *)

Lemma collect_cues_skip_empty rs1 rs2 :
  collect_cues (rs1 ++ no_cues :: rs2) = collect_cues (rs1 ++ rs2).
Proof.
  induction rs1 as [|r rs1 IH]; simpl.
  - change (cues_of no_cues) with (Ok (A:=list json) []). simpl.
    by destruct (collect_cues rs2).
  - by rewrite IH.
Qed.

Lemma py_getitem_Ok r k v :
  py_getitem r k = Ok v → truthy r = true ∧ py_contains k r = Ok true.
Proof.
  destruct r as [| | | | | | | |fields]; simpl; try done.
  destruct (assoc k fields) eqn:Hk; [|done].
  by destruct fields.
Qed.

Lemma cues_of_spec r here :
  cues_of r = Ok here →
  ∀ c, c ∈ here ↔ ∃ v items,
         py_getitem r "mouthCues" = Ok v ∧ py_iter v = Ok items ∧ c ∈ items.
Proof.
  unfold cues_of. intros H c. split.
  - destruct (truthy r); [|simplify_eq; by intros ?%elem_of_nil].
    destruct (py_contains "mouthCues" r) as [[]|]; simpl in H;
      [|simplify_eq; by intros ?%elem_of_nil|done].
    destruct (py_getitem r "mouthCues") as [v|]; simpl in H; [|done].
    intros Hc. by exists v, here.
  - intros (v & items & Hget & Hiter & Hc).
    destruct (py_getitem_Ok _ _ _ Hget) as [Htruthy Hhas].
    rewrite Htruthy, Hhas in H. simpl in H.
    rewrite Hget in H. simpl in H. congruence.
Qed.

(** What a result adds is [result["mouthCues"]], item by item, whenever
    the result has that key. *)
Lemma cues_of_items r here v :
  cues_of r = Ok here → py_getitem r "mouthCues" = Ok v → py_iter v = Ok here.
Proof.
  unfold cues_of. intros H Hget.
  destruct (py_getitem_Ok _ _ _ Hget) as [Htruthy Hhas].
  rewrite Htruthy, Hhas in H. simpl in H. by rewrite Hget in H.
Qed.

(** What a result adds, when it adds without raising, are its cues. *)
Lemma cues_of_in r here : cues_of r = Ok here → cues_in r here.
Proof.
  unfold cues_in. intros H.
  destruct (py_getitem r "mouthCues") as [v|msg] eqn:Hget.
  { by apply cues_of_items with r. }
  unfold cues_of in H. rewrite Hget in H.
  destruct (truthy r); [|by simplify_eq].
  destruct (py_contains "mouthCues" r) as [[]|]; simpl in H; by simplify_eq.
Qed.


Lemma collect_cues_spec all_results all :
  collect_cues all_results = Ok all →
  ∀ c, c ∈ all ↔ ∃ r v items,
         r ∈ all_results ∧ py_getitem r "mouthCues" = Ok v
         ∧ py_iter v = Ok items ∧ c ∈ items.
Proof.
  revert all. induction all_results as [|r rest IH]; simpl; intros all H c.
  - simplify_eq. split; [by intros ?%elem_of_nil|].
    by intros (? & ? & ? & ?%elem_of_nil & _).
  - destruct (cues_of r) as [here|] eqn:Hhere; simpl in H; [|done].
    destruct (collect_cues rest) as [later|]; simpl in H; simplify_eq.
    rewrite elem_of_app, (cues_of_spec _ _ Hhere c), (IH _ eq_refl c).
    split.
    + intros [(v & items & ?) | (r' & v & items & ? & ?)].
      * exists r, v, items. split; [left|done].
      * exists r', v, items. split; [by right|done].
    + intros (r' & v & items & [->|Hin]%elem_of_cons & ?).
      * left. by exists v, items.
      * right. by exists r', v, items.
Qed.

Lemma collect_cues_segments all_results all :
  collect_cues all_results = Ok all →
  ∃ per_segment,
    Forall2 (λ r cues, cues_of r = Ok cues) all_results per_segment
    ∧ all = concat per_segment.
Proof.
  revert all. induction all_results as [|r rest IH]; simpl; intros all H.
  - simplify_eq. by exists [].
  - destruct (cues_of r) as [here|] eqn:Hhere; simpl in H; [|done].
    destruct (collect_cues rest) as [later|]; simpl in H; simplify_eq.
    destruct (IH _ eq_refl) as (per & Hper & ->).
    exists (here :: per). split; [by constructor|done].
Qed.


Lemma cues_of_well_formed r :
  well_formed_result r = true →
  ∃ cues, cues_of r = Ok cues ∧ forallb well_formed_cue cues = true.
Proof.
  destruct r as [| | | | | | | |fields]; try done. simpl.
  destruct (assoc "mouthCues" fields) as [[| | | | | | |cues|]|] eqn:Hk; try done.
  intros Hcues. exists cues. split; [|done].
  unfold cues_of. simpl. rewrite Hk. simpl. by destruct fields.
Qed.

(** Results of the documented shape are always merged: nothing raises. *)
Lemma merge_results_returns h all_results :
  forallb well_formed_result all_results = true →
  ∃ mouth_cues, merge_results h all_results = Ok mouth_cues.
Proof.
  intros Hwf. unfold merge_results.
  assert (∃ all, collect_cues all_results = Ok all
                 ∧ forallb well_formed_cue all = true) as (all & -> & Hall).
  { induction all_results as [|r rest IH]; simpl; [by eexists|].
    apply andb_true_iff in Hwf as [Hr Hrest].
    destruct (cues_of_well_formed _ Hr) as (here & -> & Hhere).
    destruct (IH Hrest) as (later & -> & Hlater). simpl.
    eexists. split; [done|]. rewrite forallb_app. by rewrite Hhere, Hlater. }
  simpl. by apply list_sort_returns.
Qed.

(** The merge only rearranges what the results add. *)
Lemma merge_results_perm h all_results mouth_cues :
  merge_results h all_results = Ok mouth_cues →
  ∃ all, collect_cues all_results = Ok all
         ∧ list_sort h start_key all = Ok mouth_cues
         ∧ mouth_cues ≡ₚ all.
Proof.
  unfold merge_results. intros H.
  destruct (collect_cues all_results) as [all|]; simpl in H; [|done].
  exists all. split_and!; [done..|]. by eapply list_sort_perm.
Qed.

(** The loop over the chunks, cut in two. *)
Lemma analyze_chunks_app h output_path i chunks1 chunks2 w results1 w1 :
  analyze_chunks h output_path i chunks1 w = (Ok results1, w1) →
  analyze_chunks h output_path i (chunks1 ++ chunks2) w
  = match analyze_chunks h output_path (i + length chunks1) chunks2 w1 with
    | (Ok results2, w2) => (Ok (results1 ++ results2), w2)
    | (Raise e, w2) => (Raise e, w2)
    end.
Proof.
  revert i w results1.
  induction chunks1 as [|chunk rest IH]; intros i w results1; cbn [analyze_chunks].
  - unfold ret. intros ?; simplify_eq. simpl. rewrite Nat.add_0_r.
    by destruct (analyze_chunks h output_path i chunks2 w1) as [[]].
  - simpl. unfold_io.
    destruct (run_rhubarb h chunk _ w) as [[r|] wa]; [|done].
    destruct (os_unlink h chunk wa) as [[|] wb]; [|done].
    destruct (analyze_chunks h output_path (S i) rest wb) as [[rs|] wc] eqn:Hrest;
      [|done].
    intros ?; simplify_eq. rewrite (IH _ _ _ Hrest).
    rewrite <- Nat.add_succ_comm.
    by destruct (analyze_chunks h output_path (S i + length rest) chunks2 w1) as [[]].
Qed.



Lemma demo_segmented :
  ∃ w3 w4,
    segmented (demo_host probe_45) "UklGRg==" "1700000000000" empty_world
      [chunk_path "1700000000000" 0; chunk_path "1700000000000" 1] w3
    ∧ analyze_chunks (demo_host probe_45) (output_path_of "1700000000000") 0
        [chunk_path "1700000000000" 0; chunk_path "1700000000000" 1] w3
      = (Ok demo_results, w4).
Proof.
  do 2 eexists. split.
  - do 3 eexists. split_and!; [reflexivity|reflexivity|reflexivity|].
    vm_compute. reflexivity.
  - vm_compute. reflexivity.
Defined.


(** C1, as the code has it: the merge changes no cue.  In a run that
    returns, the cues of each chunk's result are the items of its
    [mouthCues] as they stand; the cue list returned is [list.sort] by
    start of their concatenation in the order of the chunks, which only
    rearranges it,
    into ascending order of start with ties in place when no cue starts at
    NaN or at a list.  Every cue returned is thus a cue of some chunk with
    the times the analyzer wrote for that chunk. *)
Theorem merge_keeps_cues_unchanged (h : host) (audio_data timestamp : string)
    (w w3 w4 : world) (chunks : list string) (all_results : list json) (r : json) :
  segmented h audio_data timestamp w chunks w3 →
  analyze_chunks h (output_path_of timestamp) 0 chunks w3 = (Ok all_results, w4) →
  (process_audio_with_rhubarb h audio_data timestamp w).1 = Ok r →
  ∃ per_segment mouth_cues,
    Forall2 cues_in all_results per_segment
    ∧ r = JObj [("mouthCues", JArr mouth_cues)]
    ∧ list_sort h start_key (concat per_segment) = Ok mouth_cues
    ∧ mouth_cues ≡ₚ concat per_segment
    ∧ (plain_starts (concat per_segment) = true →
       StronglySorted start_le mouth_cues
       ∧ ∀ k, List.filter (same_start k) mouth_cues
              = List.filter (same_start k) (concat per_segment)).
Proof.
  intros Hseg Hloop.
  destruct (process_audio_with_rhubarb h audio_data timestamp w) as [r' w'] eqn:Hrun.
  simpl. intros ->.
  destruct (process_audio_returns _ _ _ _ _ _ Hrun)
    as (chunks' & w3' & all_results' & w4' & mouth_cues & Hseg' & Hloop' & Hmerge & ->).
  destruct (segmented_functional _ _ _ _ _ _ _ _ Hseg Hseg') as [<- <-].
  rewrite Hloop in Hloop'. simplify_eq.
  destruct (merge_results_perm _ _ _ Hmerge) as (all & Hall & Hsort & Hperm).
  destruct (collect_cues_segments _ _ Hall) as (per_segment & Hper & ->).
  exists per_segment, mouth_cues. split_and!; [|done..|].
  - eapply Forall2_impl; [exact Hper|]. intros res cues. apply cues_of_in.
  - intros Hplain.
    by destruct (list_sort_plain h _ _ Hsort Hplain) as (Hsorted & _ & Hstable).
Qed.

Lemma merge_keeps_cues_unchanged_witness :
  ∃ per_segment mouth_cues,
    Forall2 cues_in demo_results per_segment
    ∧ JObj [("mouthCues", JArr [cue 0 (1 # 2) "X"; cue (1 # 2) 1 "B"; cue 20 21 "A"])]
      = JObj [("mouthCues", JArr mouth_cues)]
    ∧ list_sort (demo_host probe_45) start_key (concat per_segment) = Ok mouth_cues
    ∧ mouth_cues ≡ₚ concat per_segment
    ∧ (plain_starts (concat per_segment) = true →
       StronglySorted start_le mouth_cues
       ∧ ∀ k, List.filter (same_start k) mouth_cues
              = List.filter (same_start k) (concat per_segment)).
Proof.
  destruct demo_segmented as (w3 & w4 & Hseg & Hloop).
  apply (merge_keeps_cues_unchanged _ _ _ _ _ _ _ _ _ Hseg Hloop).
  vm_compute. reflexivity.
Defined.

(** C1 does not hold as stated: on the 45 second clip the cue the
    analyzer reports half a second into the second chunk is returned with
    start 1/2, in front of a cue of the first chunk, where the rebasing
    merge of the specification has it at 30 + 1/2. *)
Lemma merge_does_not_rebase :
  (process_audio_with_rhubarb (demo_host probe_45) "UklGRg==" "1700000000000"
     empty_world).1
  = Ok (JObj [("mouthCues", JArr [cue 0 (1 # 2) "X"; cue (1 # 2) 1 "B"; cue 20 21 "A"])])
  ∧ merge_results (demo_host probe_45) demo_results
    = Ok [cue 0 (1 # 2) "X"; cue (1 # 2) 1 "B"; cue 20 21 "A"]
  ∧ spec_merge (demo_host probe_45) demo_results
    = Ok [cue 0 (1 # 2) "X"; cue 20 21 "A"; cue (61 # 2) 31 "B"]
  ∧ merge_results (demo_host probe_45) demo_results
    ≠ spec_merge (demo_host probe_45) demo_results.
Proof.
  split_and!; [by vm_compute..|]. vm_compute. discriminate.
Qed.

(** C9 fails on the code.  [run_rhubarb] turns the failed analysis of a
    chunk into a result without cues, but the loop then deletes the chunk
    without looking whether the file is there, as [cleanup_temp_files]
    does.  On this run of two chunks the first is analysed, the analysis
    of the second fails because ffmpeg never wrote it, and the run raises,
    so that [predict] answers with an error and no cue, where the merge of
    the first chunk's result alone is two cues. *)
Theorem failed_segment_aborts_run :
  ∃ w3 wk,
    segmented missing_chunk_host "UklGRg==" "1700000000000" empty_world
      [chunk_path "1700000000000" 0; chunk_path "1700000000000" 1] w3
    ∧ analyze_chunks missing_chunk_host (output_path_of "1700000000000") 0
        [chunk_path "1700000000000" 0] w3
      = (Ok [nth 0 demo_results JNull], wk)
    ∧ analysis_fails missing_chunk_host (chunk_path "1700000000000" 1)
        (chunk_output_of "1700000000000" 1) wk = true
    ∧ (process_audio_with_rhubarb missing_chunk_host "UklGRg==" "1700000000000"
         empty_world).1
      = Raise "[Errno 2] No such file or directory: '/tmp/chunk-1700000000000-1.wav'"
    ∧ (predict missing_chunk_host "UklGRg==" false empty_world).1
      = Ok (JObj [("error",
                   JStr "[Errno 2] No such file or directory: '/tmp/chunk-1700000000000-1.wav'");
                  ("mouthCues", JArr [])])
    ∧ merge_results missing_chunk_host [nth 0 demo_results JNull]
      = Ok [cue 0 (1 # 2) "X"; cue 20 21 "A"].
Proof.
  do 2 eexists. split_and!.
  - do 3 eexists. split_and!; [reflexivity|reflexivity|reflexivity|].
    vm_compute. reflexivity.
  - vm_compute. reflexivity.
  - vm_compute. reflexivity.
  - vm_compute. reflexivity.
  - vm_compute. reflexivity.
  - vm_compute. reflexivity.
Qed.

(** X22: a failed analysis is survived when the chunk can be deleted.
    When the chunks before one chunk are analysed, the analysis of that
    chunk fails, the chunk file is deleted without error, the chunks after
    it are analysed and the results of the others merge, then the run
    returns: its results are those of the others with [{"mouthCues": []}]
    at the failed chunk's place, and its cue list is the merge of the
    results of the others alone. *)
Theorem failed_segment_is_dropped (h : host) (audio_data timestamp : string)
    (w w3 wk wk2 w4 : world) (chunks_before chunks_after : list string)
    (chunk : string) (before after mouth_cues : list json) :
  let output := chunk_output_of timestamp (length chunks_before) in
  segmented h audio_data timestamp w (chunks_before ++ chunk :: chunks_after) w3 →
  analyze_chunks h (output_path_of timestamp) 0 chunks_before w3 = (Ok before, wk) →
  analysis_fails h chunk output wk = true →
  os_unlink h chunk (run_rhubarb h chunk output wk).2 = (Ok tt, wk2) →
  analyze_chunks h (output_path_of timestamp) (S (length chunks_before)) chunks_after wk2
  = (Ok after, w4) →
  merge_results h (before ++ after) = Ok mouth_cues →
  analyze_chunks h (output_path_of timestamp) 0
    (chunks_before ++ chunk :: chunks_after) w3
  = (Ok (before ++ JObj [("mouthCues", JArr [])] :: after), w4)
  ∧ (process_audio_with_rhubarb h audio_data timestamp w).1
    = Ok (JObj [("mouthCues", JArr mouth_cues)]).
Proof.
  intros output Hseg Hbefore Hfail Hunlink Hafter Hmerge.
  assert (analyze_chunks h (output_path_of timestamp) 0
            (chunks_before ++ chunk :: chunks_after) w3
          = (Ok (before ++ no_cues :: after), w4)) as Hloop.
  { rewrite (analyze_chunks_app _ _ _ _ _ _ _ _ Hbefore). simpl.
    cbn [analyze_chunks]. unfold bind at 1.
    pose proof (run_rhubarb_failure _ _ _ _ Hfail) as Hrun.
    fold (chunk_output_of timestamp (length chunks_before)). fold output.
    destruct (run_rhubarb h chunk output wk) as [r wk1]. simpl in Hrun, Hunlink.
    subst r. unfold bind at 1. rewrite Hunlink.
    unfold bind at 1. rewrite Hafter. done. }
  split; [done|].
  eapply process_audio_reaches; [done..|].
  unfold merge_results in *. by rewrite collect_cues_skip_empty.
Qed.

Lemma failed_segment_is_dropped_witness :
  (process_audio_with_rhubarb bad_second_chunk_host "UklGRg==" "1700000000000"
     empty_world).1
  = Ok (JObj [("mouthCues", JArr [cue 0 (1 # 2) "X"; cue 20 21 "A"])]).
Proof.
  eapply (failed_segment_is_dropped bad_second_chunk_host "UklGRg==" "1700000000000"
            empty_world _ _ _ _ [chunk_path "1700000000000" 0] []
            (chunk_path "1700000000000" 1) [nth 0 demo_results JNull] []).
  - do 3 eexists. split_and!; [reflexivity|reflexivity|reflexivity|].
    vm_compute. reflexivity.
  - vm_compute. reflexivity.
  - vm_compute. reflexivity.
  - vm_compute. reflexivity.
  - vm_compute. reflexivity.
  - vm_compute. reflexivity.
Defined.

(** ** Temporary files *)

(** C2 fails on the code.  After the successful run on the 45 second
    clip, started with no file at all, the two analyzer outputs are still
    there; and when ffprobe prints nothing usable, the run raises and the
    normalised wav stays behind. *)
Theorem cleanup_leaves_files :
  let ok := process_audio_with_rhubarb (demo_host probe_45) "UklGRg==" "1700000000000"
              empty_world in
  let failed := process_audio_with_rhubarb (demo_host "N/A") "UklGRg==" "1700000000000"
                  empty_world in
  (∃ r, ok.1 = Ok r)
  ∧ elements (files ok.2)
    = ["/tmp/output-1700000000000.json-chunk1.json";
       "/tmp/output-1700000000000.json-chunk0.json"]
  ∧ failed.1
    = Raise "Audio chunking failed: could not convert string to float: 'N/A'"
  ∧ elements (files failed.2) = ["/tmp/wav-1700000000000.wav"].
Proof.
  split_and!; [eexists|..]; by vm_compute.
Qed.

(** ** The segmenter *)

Lemma truncate_nonneg q : (0 <= q)%Q → truncate q = Qfloor q ∧ (0 ≤ Qfloor q)%Z.
Proof.
  intros Hq. unfold truncate.
  pose proof (proj2 (Qle_bool_iff 0 q) Hq) as ->. split; [done|].
  change 0%Z with (Qfloor 0). by apply Qfloor_resp_le.
Qed.

Lemma extract_chunks_trace h wav_path timestamp indices w :
  (∀ i w0, ∃ p fs, run_process h (chunk_cmd wav_path timestamp i) w0 = Ok (p, fs)) →
  ∃ w',
    extract_chunks h wav_path timestamp indices w
    = (Ok (map (chunk_path timestamp) indices), w')
    ∧ trace w' = trace w ++ map (λ i, ESpawn (chunk_cmd wav_path timestamp i)) indices.
Proof.
  intros Hspawn. revert w. induction indices as [|i rest IH]; intros w.
  - exists w. split; [done|]. simpl. by rewrite app_nil_r.
  - cbn [extract_chunks]. unfold_io.
    destruct (Hspawn i (log (ESpawn (chunk_cmd wav_path timestamp i)) w))
      as (p & fs & ->).
    destruct (IH (World fs (trace (log (ESpawn (chunk_cmd wav_path timestamp i)) w))))
      as (w' & -> & Htrace).
    exists w'. split; [done|]. rewrite Htrace. simpl. by rewrite <- app_assoc.
Qed.

(** C3: for a probed duration [D >= 0], with an ffmpeg that can be
    started, the segmenter returns [floor(D / 30) + 1] chunks; chunk [i]
    is extracted with [-ss i*30 -t 30], so each window starts where the
    one before ends. *)
Theorem segmenter_windows (h : host) (wav_path timestamp : string) (w : world)
    (p : completed) (fs : gset string) (D : Q) :
  (∀ i w0, ∃ p0 fs0, run_process h (chunk_cmd wav_path timestamp i) w0 = Ok (p0, fs0)) →
  run_process h (duration_cmd wav_path) (log (ESpawn (duration_cmd wav_path)) w)
  = Ok (p, fs) →
  float_of_str h (strip (stdout p)) = Ok (Finite D) →
  (0 <= D)%Q →
  ∃ chunks w',
    split_audio_into_chunks h wav_path timestamp w = (Ok chunks, w')
    ∧ Z.of_nat (length chunks) = (Qfloor (D / 30) + 1)%Z
    ∧ chunks = map (chunk_path timestamp) (seq 0 (length chunks))
    ∧ trace w'
      = trace w ++ ESpawn (duration_cmd wav_path)
          :: map (λ i, ESpawn (chunk_cmd wav_path timestamp i)) (seq 0 (length chunks))
    ∧ ∀ i,
        chunk_cmd wav_path timestamp i
        = ["ffmpeg"; "-i"; wav_path; "-ss"; pretty (i * 30)%nat; "-t"; "30";
           "-acodec"; "pcm_s16le"; "-ar"; "44100"; "-ac"; "1"; "-y";
           chunk_path timestamp i]
        ∧ start_time (S i) = (start_time i + 30)%nat.
Proof.
  intros Hspawn Hprobe Hfloat HD.
  assert (0 <= D / 30)%Q as Hq.
  { apply Qle_shift_div_l; [done|]. by rewrite Qmult_0_l. }
  destruct (truncate_nonneg _ Hq) as [Htrunc Hfloor].
  set (n := Z.to_nat (Qfloor (D / 30) + 1)).
  destruct (extract_chunks_trace h wav_path timestamp (seq 0 n)
              (World fs (trace w ++ [ESpawn (duration_cmd wav_path)])) Hspawn)
    as (w' & Hloop & Htrace).
  exists (map (chunk_path timestamp) (seq 0 n)), w'.
  assert (length (map (chunk_path timestamp) (seq 0 n)) = n) as Hlen
    by by rewrite length_map, length_seq.
  split_and!.
  - unfold split_audio_into_chunks. unfold_io.
    rewrite Hprobe, Hfloat. simpl.
    change (inject_Z (Z.of_nat chunk_duration)) with 30%Q.
    rewrite Htrunc. unfold range. fold n. simpl in Hloop. by rewrite Hloop.
  - rewrite Hlen. unfold n. lia.
  - by rewrite Hlen.
  - rewrite Hlen, Htrace. simpl. by rewrite <- app_assoc.
  - intros i. split; [done|]. unfold start_time, chunk_duration. lia.
Qed.

Lemma segmenter_windows_witness :
  ∃ chunks w',
    split_audio_into_chunks (demo_host probe_45) "/tmp/wav-1700000000000.wav"
      "1700000000000" empty_world
    = (Ok chunks, w')
    ∧ Z.of_nat (length chunks) = 2%Z
    ∧ chunks = ["/tmp/chunk-1700000000000-0.wav"; "/tmp/chunk-1700000000000-1.wav"].
Proof.
  destruct (segmenter_windows (demo_host probe_45) "/tmp/wav-1700000000000.wav"
              "1700000000000" empty_world (Completed 0 probe_45 "") ∅ 45)
    as (chunks & w' & Hrun & Hlen & Hchunks & _).
  - intros i w0. eexists _, _. reflexivity.
  - reflexivity.
  - reflexivity.
  - vm_compute. discriminate.
  - exists chunks, w'. split_and!; [exact Hrun|exact Hlen|].
    rewrite Hchunks. change (Qfloor (45 / 30) + 1)%Z with 2%Z in Hlen.
    assert (length chunks = 2%nat) as -> by lia. reflexivity.
Defined.

(** * Further properties of the code *)

(** ** [cleanup_temp_files] *)

(** X1: [cleanup_temp_files] never raises, whatever the host does: it
    creates no file, removes none but those listed, starts no program, and
    unlinks nothing that is not in its list. *)
Theorem cleanup_never_raises (h : host) (file_paths : list string) (w : world) :
  ∃ w' evs,
    cleanup_temp_files h file_paths w = (Ok tt, w')
    ∧ files w' ⊆ files w
    ∧ files w ∖ list_to_set file_paths ⊆ files w'
    ∧ appends w w' evs
    ∧ unlinked evs ⊆ file_paths
    ∧ spawned evs = [].
Proof.
  revert w. induction file_paths as [|file_path rest IH]; intros w.
  - exists w, []. unfold appends. rewrite app_nil_r.
    split_and!; [done|set_solver..|done|done|done].
  - destruct (cleanup_step h file_path rest w)
      as (w1 & -> & Hsub & Hkeep & _ & _ & evs1 & Hevs1 & Hun1 & Hsp1).
    destruct (IH w1) as (w' & evs & -> & Hsub' & Hkeep' & Hevs & Hun & Hsp).
    exists w', (evs1 ++ evs). unfold appends in *.
    split_and!; [done|set_solver|set_solver| | |].
    + by rewrite Hevs, Hevs1, <- app_assoc.
    + unfold unlinked in *. rewrite omap_app. set_solver.
    + unfold spawned in *. rewrite omap_app, Hsp1, Hsp. done.
Qed.

(** X2: when [os.unlink] does not fail on the listed files, none of them
    exists afterwards and every other file is still there. *)
Theorem cleanup_removes_listed (h : host) (file_paths : list string) (w w' : world) :
  (∀ path w0, path ∈ file_paths → unlink_error h path w0 = None) →
  cleanup_temp_files h file_paths w = (Ok tt, w') →
  files w' = files w ∖ list_to_set file_paths.
Proof.
  revert w. induction file_paths as [|file_path rest IH]; intros w Hok Hrun.
  - unfold cleanup_temp_files, ret in Hrun. simplify_eq. set_solver.
  - destruct (cleanup_step h file_path rest w)
      as (w1 & Hstep & Hsub & Hkeep & _ & Hgone & _).
    rewrite Hstep in Hrun.
    rewrite (IH w1); [|intros; apply Hok; set_solver|done].
    assert (file_path ∉ files w1) as Hgone' by (apply Hgone, Hok; set_solver).
    apply set_eq. intros x. rewrite !elem_of_difference, elem_of_list_to_set.
    rewrite elem_of_list_to_set, elem_of_cons.
    split.
    + intros [Hx Hrest]. split; [set_solver|]. intros [->|?]; done.
    + intros [Hx Hnot]. split; [|tauto].
      apply Hkeep. rewrite elem_of_difference, elem_of_singleton. tauto.
Qed.

Lemma cleanup_removes_listed_witness :
  files (World {["/tmp/b"]} [EUnlink "/tmp/a"])
  = files two_files_world ∖ list_to_set ["/tmp/a"; "/tmp/missing"].
Proof.
  apply (cleanup_removes_listed (demo_host probe_45) ["/tmp/a"; "/tmp/missing"]
           two_files_world (World {["/tmp/b"]} [EUnlink "/tmp/a"])); [reflexivity|].
  vm_compute. reflexivity.
Defined.

(** X3: files that do not exist are skipped in silence: the world is left
    exactly as it was, with nothing printed. *)
Theorem cleanup_skips_missing (h : host) (file_paths : list string) (w : world) :
  (∀ path, path ∈ file_paths → path ∉ files w) →
  cleanup_temp_files h file_paths w = (Ok tt, w).
Proof.
  induction file_paths as [|file_path rest IH]; intros Hmissing; [done|].
  destruct (cleanup_step h file_path rest w) as (w1 & -> & _ & _ & Hsame & _).
  rewrite Hsame by (apply Hmissing; set_solver).
  apply IH. intros path Hpath. apply Hmissing. set_solver.
Qed.

Lemma cleanup_skips_missing_witness :
  cleanup_temp_files (demo_host probe_45) ["/tmp/input-1.wav"; "/tmp/output-1.json"]
    two_files_world
  = (Ok tt, two_files_world).
Proof.
  apply (cleanup_skips_missing (demo_host probe_45)). intros path Hpath.
  apply elem_of_cons in Hpath as [->|Hpath];
    [apply (bool_decide_eq_false_1 _); vm_compute; reflexivity|].
  apply elem_of_cons in Hpath as [->|Hpath];
    [apply (bool_decide_eq_false_1 _); vm_compute; reflexivity|].
  by apply elem_of_nil in Hpath.
Defined.

(** X4: a file that cannot be deleted stays where it is; the failure is
    printed with the file's name and the message of the exception, and the
    files after it in the list are still cleaned. *)
Theorem cleanup_reports_failed_unlink (h : host) (file_path msg : string)
    (rest : list string) (w : world) :
  file_path ∈ files w →
  unlink_error h file_path w = Some msg →
  cleanup_temp_files h (file_path :: rest) w
  = cleanup_temp_files h rest
      (log (EPrint ("Failed to delete " +:+ file_path +:+ ": " +:+ msg)) w).
Proof.
  intros Hin Herr. cbn [cleanup_temp_files].
  unfold os_path_exists, os_unlink. unfold_io.
  by rewrite !(bool_decide_true _ Hin), Herr.
Qed.

Lemma cleanup_reports_failed_unlink_witness :
  cleanup_temp_files locked_file_host ["/tmp/locked"; "/tmp/a"] locked_world
  = (Ok tt,
     World {["/tmp/locked"]}
       [EPrint ("Failed to delete /tmp/locked: "
                +:+ "[Errno 1] Operation not permitted: '/tmp/locked'");
        EUnlink "/tmp/a"]).
Proof.
  rewrite (cleanup_reports_failed_unlink locked_file_host "/tmp/locked"
             "[Errno 1] Operation not permitted: '/tmp/locked'").
  - vm_compute. reflexivity.
  - apply (bool_decide_eq_true_1 _). vm_compute. reflexivity.
  - reflexivity.
Defined.

(** ** [convert_to_wav] *)

(** X5: [convert_to_wav] starts ffmpeg once and does nothing else; it
    either returns the output path it was given, without looking whether
    the file is there, or raises a message that begins with
    "Audio conversion failed: ". *)
Theorem convert_to_wav_outcome (h : host) (input_path output_path : string)
    (w : world) :
  ∃ w',
    appends w w' [ESpawn (convert_cmd input_path output_path)]
    ∧ (convert_to_wav h input_path output_path w = (Ok output_path, w')
       ∨ ∃ msg,
           convert_to_wav h input_path output_path w
           = (Raise ("Audio conversion failed: " +:+ msg), w')).
Proof.
  unfold convert_to_wav, appends. unfold_io.
  destruct (run_process h _ _) as [[p fs]|msg]; simpl.
  - destruct (bool_decide (returncode p ≠ 0%Z)); simpl.
    + exists (World fs (trace w ++ [ESpawn (convert_cmd input_path output_path)])).
      split; [reflexivity|]. right. by eexists.
    + exists (World fs (trace w ++ [ESpawn (convert_cmd input_path output_path)])).
      split; [reflexivity|]. by left.
  - exists (log (ESpawn (convert_cmd input_path output_path)) w).
    split; [reflexivity|]. right. by eexists.
Qed.

(** X6: when ffmpeg exits with a non-zero status the exception raised
    inside the [try] is caught by the function's own handler: the message
    carries both prefixes and ffmpeg's standard error. *)
Theorem convert_to_wav_nonzero_exit (h : host) (input_path output_path : string)
    (w : world) (p : completed) (fs : gset string) :
  run_process h (convert_cmd input_path output_path)
    (log (ESpawn (convert_cmd input_path output_path)) w)
  = Ok (p, fs) →
  returncode p ≠ 0%Z →
  (convert_to_wav h input_path output_path w).1
  = Raise ("Audio conversion failed: FFmpeg conversion failed: " +:+ stderr p).
Proof.
  intros Hrun Hcode. unfold convert_to_wav. unfold_io.
  by rewrite Hrun, (bool_decide_true _ Hcode).
Qed.

Lemma convert_to_wav_nonzero_exit_witness :
  (convert_to_wav broken_ffmpeg_host "/tmp/input-1.wav" "/tmp/wav-1.wav" empty_world).1
  = Raise ("Audio conversion failed: FFmpeg conversion failed: "
           +:+ "Invalid data found when processing input").
Proof.
  apply (convert_to_wav_nonzero_exit broken_ffmpeg_host "/tmp/input-1.wav"
           "/tmp/wav-1.wav" empty_world
           (Completed 1 "" "Invalid data found when processing input") ∅).
  - reflexivity.
  - simpl. lia.
Defined.

(** ** [split_audio_into_chunks] *)

Lemma string_length_app s t : String.length (s +:+ t) = String.length s + String.length t.
Proof. induction s as [|c s IH]; simpl; [done|]. by rewrite IH. Qed.

Lemma string_app_inv_tail s1 s2 t : s1 +:+ t = s2 +:+ t → s1 = s2.
Proof.
  revert s2. induction s1 as [|c s1 IH]; intros [|c' s2] H; simpl in H.
  - done.
  - apply (f_equal String.length) in H.
    rewrite !string_length_app in H. simpl in H. lia.
  - apply (f_equal String.length) in H.
    rewrite !string_length_app in H. simpl in H. lia.
  - injection H as -> H. f_equal. by apply IH.
Qed.

Lemma chunk_path_inj timestamp i j :
  chunk_path timestamp i = chunk_path timestamp j → i = j.
Proof.
  unfold chunk_path. intros H.
  do 3 apply String.app_inj in H.
  apply string_app_inv_tail in H. by apply (inj pretty) in H.
Qed.

Lemma extract_chunks_events h wav_path timestamp indices w chunks w' :
  extract_chunks h wav_path timestamp indices w = (Ok chunks, w') →
  chunks = map (chunk_path timestamp) indices
  ∧ appends w w' (map (λ i, ESpawn (chunk_cmd wav_path timestamp i)) indices).
Proof.
  unfold appends. revert w chunks.
  induction indices as [|i rest IH]; intros w chunks; cbn [extract_chunks].
  - unfold ret. intros ?; simplify_eq. simpl. by rewrite app_nil_r.
  - unfold_io. destruct (run_process h _ _) as [[p fs]|]; [|done].
    destruct (extract_chunks h wav_path timestamp rest _) as [[chunks'|] w1] eqn:Hrest;
      [|done].
    intros ?; simplify_eq. destruct (IH _ _ Hrest) as [-> Htrace].
    split; [done|]. rewrite Htrace. simpl. by rewrite <- app_assoc.
Qed.

(** X7: whatever the host does, a segmentation that returns has named its
    chunks [/tmp/chunk-<timestamp>-<i>.wav] for [i = 0, 1, ...], all
    different, having started ffprobe once and then ffmpeg once per chunk
    in that order, and nothing else; one that raises does so with a
    message that begins with "Audio chunking failed: ". *)
Theorem split_audio_outcome (h : host) (wav_path timestamp : string) (w : world) :
  match split_audio_into_chunks h wav_path timestamp w with
  | (Ok chunks, w') =>
      chunks = map (chunk_path timestamp) (seq 0 (length chunks))
      ∧ NoDup chunks
      ∧ appends w w'
          (ESpawn (duration_cmd wav_path)
             :: map (λ i, ESpawn (chunk_cmd wav_path timestamp i))
                  (seq 0 (length chunks)))
  | (Raise e, _) => ∃ msg, e = "Audio chunking failed: " +:+ msg
  end.
Proof.
  unfold split_audio_into_chunks. unfold_io.
  destruct (run_process h _ _) as [[p fs]|msg]; simpl; [|by eexists].
  destruct (float_of_str h _) as [duration|msg]; simpl; [|by eexists].
  destruct (py_int _) as [whole|msg]; simpl; [|by eexists].
  destruct (extract_chunks h wav_path timestamp _ _) as [[chunks|msg] w'] eqn:Hloop;
    [|by eexists].
  destruct (extract_chunks_events _ _ _ _ _ _ _ Hloop) as [-> Htrace].
  unfold range in *. rewrite length_map, length_seq. split_and!.
  - done.
  - apply NoDup_fmap_2; [|apply NoDup_seq].
    intros i j. apply chunk_path_inj.
  - unfold appends in *. rewrite Htrace. simpl. by rewrite <- app_assoc.
Qed.

(** X8: when [float] cannot read what ffprobe printed, the segmentation
    raises the conversion message behind "Audio chunking failed: " and no
    chunk is extracted: ffprobe is the only program started. *)
Theorem split_audio_unreadable_duration (h : host) (wav_path timestamp msg : string)
    (w : world) (p : completed) (fs : gset string) :
  run_process h (duration_cmd wav_path) (log (ESpawn (duration_cmd wav_path)) w)
  = Ok (p, fs) →
  float_of_str h (strip (stdout p)) = Raise msg →
  split_audio_into_chunks h wav_path timestamp w
  = (Raise ("Audio chunking failed: " +:+ msg),
     World fs (trace w ++ [ESpawn (duration_cmd wav_path)])).
Proof.
  intros Hprobe Hfloat. unfold split_audio_into_chunks. unfold_io.
  by rewrite Hprobe, Hfloat.
Qed.

Lemma split_audio_unreadable_duration_witness :
  split_audio_into_chunks (demo_host "N/A") "/tmp/wav-1.wav" "1" empty_world
  = (Raise ("Audio chunking failed: "
            +:+ "could not convert string to float: 'N/A'"),
     World ∅ (trace empty_world ++ [ESpawn (duration_cmd "/tmp/wav-1.wav")])).
Proof.
  apply (split_audio_unreadable_duration (demo_host "N/A") "/tmp/wav-1.wav" "1"
           "could not convert string to float: 'N/A'" empty_world
           (Completed 0 "N/A" "") ∅); reflexivity.
Defined.

(** ** [run_rhubarb] and the loop over the chunks *)

Lemma unlinked_app evs1 evs2 : unlinked (evs1 ++ evs2) = unlinked evs1 ++ unlinked evs2.
Proof. apply omap_app. Qed.

Lemma spawned_app evs1 evs2 : spawned (evs1 ++ evs2) = spawned evs1 ++ spawned evs2.
Proof. apply omap_app. Qed.

Lemma unlinked_unlink path evs : unlinked (EUnlink path :: evs) = path :: unlinked evs.
Proof. reflexivity. Qed.

Lemma spawned_unlink path evs : spawned (EUnlink path :: evs) = spawned evs.
Proof. reflexivity. Qed.

Lemma run_rhubarb_events h input_path output_path w :
  ∃ r w' evs,
    run_rhubarb h input_path output_path w = (Ok r, w')
    ∧ appends w w' evs
    ∧ spawned evs = [rhubarb_cmd input_path output_path]
    ∧ unlinked evs = [].
Proof.
  unfold run_rhubarb, read_json, appends. unfold_io. unfold log. simpl.
  destruct (run_process h _ _) as [[p fs]|msg]; simpl.
  - destruct (bool_decide (returncode p ≠ 0%Z)); simpl.
    + eexists _, _, [_; _]. by rewrite <- app_assoc.
    + destruct (bool_decide (output_path ∈ fs)); simpl.
      * destruct (json_load h output_path _); simpl.
        -- by eexists _, _, [_].
        -- eexists _, _, [_; _]. by rewrite <- app_assoc.
      * eexists _, _, [_; _]. by rewrite <- app_assoc.
  - eexists _, _, [_; _]. by rewrite <- app_assoc.
Qed.

(** X9: when rhubarb exits with 0 and its output file parses, [run_rhubarb]
    returns the parsed value as it is, whatever its shape, and prints
    nothing; the output file is left in place. *)
Theorem run_rhubarb_returns_parsed_output (h : host) (input_path output_path : string)
    (w : world) (p : completed) (fs : gset string) (data : json) :
  run_process h (rhubarb_cmd input_path output_path)
    (log (ESpawn (rhubarb_cmd input_path output_path)) w)
  = Ok (p, fs) →
  returncode p = 0%Z →
  output_path ∈ fs →
  json_load h output_path
    (World fs (trace w ++ [ESpawn (rhubarb_cmd input_path output_path)]))
  = Ok data →
  run_rhubarb h input_path output_path w
  = (Ok data, World fs (trace w ++ [ESpawn (rhubarb_cmd input_path output_path)])).
Proof.
  intros Hrun Hcode Hfile Hload.
  unfold run_rhubarb, read_json. unfold_io. rewrite Hrun. simpl.
  rewrite bool_decide_false by lia. simpl.
  by rewrite (bool_decide_true _ Hfile), Hload.
Qed.

Lemma run_rhubarb_returns_parsed_output_witness :
  run_rhubarb (demo_host probe_45) "/tmp/chunk-1700000000000-1.wav"
    "/tmp/output-1700000000000.json-chunk1.json" empty_world
  = (Ok (JObj [("mouthCues", JArr [cue (1 # 2) 1 "B"])]),
     World {["/tmp/output-1700000000000.json-chunk1.json"]}
       (trace empty_world
        ++ [ESpawn (rhubarb_cmd "/tmp/chunk-1700000000000-1.wav"
                      "/tmp/output-1700000000000.json-chunk1.json")])).
Proof.
  apply (run_rhubarb_returns_parsed_output (demo_host probe_45)
           "/tmp/chunk-1700000000000-1.wav"
           "/tmp/output-1700000000000.json-chunk1.json" empty_world
           (Completed 0 "" "")).
  - vm_compute. reflexivity.
  - reflexivity.
  - apply (bool_decide_eq_true_1 _). vm_compute. reflexivity.
  - reflexivity.
Defined.

(** X10: the loop deletes each chunk after its analysis without looking
    whether it exists.  If the chunk file is not there, [os.unlink] raises
    and the loop stops with that exception, although the analysis itself
    returned: the chunks after it are neither analysed nor deleted. *)
Theorem analyze_chunks_missing_chunk (h : host) (output_path chunk : string)
    (i : nat) (rest : list string) (w w1 : world) (r : json) :
  run_rhubarb h chunk (output_path +:+ "-chunk" +:+ pretty i +:+ ".json") w
  = (Ok r, w1) →
  chunk ∉ files w1 →
  analyze_chunks h output_path i (chunk :: rest) w
  = (Raise ("[Errno 2] No such file or directory: '" +:+ chunk +:+ "'"), w1).
Proof.
  intros Hrun Hmissing. cbn [analyze_chunks]. unfold bind at 1.
  rewrite Hrun. unfold bind, os_unlink.
  by rewrite (bool_decide_false _ Hmissing).
Qed.

Lemma analyze_chunks_missing_chunk_witness :
  analyze_chunks broken_rhubarb_host "/tmp/output-1.json" 0
    ["/tmp/chunk-1-0.wav"; "/tmp/chunk-1-1.wav"] empty_world
  = (Raise ("[Errno 2] No such file or directory: '" +:+ "/tmp/chunk-1-0.wav" +:+ "'"),
     World ∅
       [ESpawn (rhubarb_cmd "/tmp/chunk-1-0.wav" "/tmp/output-1.json-chunk0.json");
        EPrint "Rhubarb stderr: Error: bad wave file"]).
Proof.
  apply (analyze_chunks_missing_chunk broken_rhubarb_host "/tmp/output-1.json"
           "/tmp/chunk-1-0.wav" 0 ["/tmp/chunk-1-1.wav"] empty_world _ no_cues).
  - vm_compute. reflexivity.
  - apply (bool_decide_eq_false_1 _). vm_compute. reflexivity.
Defined.

(** X11: a loop that returns has one result per chunk, has started rhubarb
    once per chunk, in order, writing to [<output_path>-chunk<k>.json] for
    the chunk's index [k], and has deleted exactly the chunks, in order. *)
Theorem analyze_chunks_trace (h : host) (output_path : string) (i : nat)
    (chunks : list string) (w w' : world) (all_results : list json) :
  analyze_chunks h output_path i chunks w = (Ok all_results, w') →
  length all_results = length chunks
  ∧ ∃ evs,
      appends w w' evs
      ∧ unlinked evs = chunks
      ∧ spawned evs
        = imap (λ k chunk,
                  rhubarb_cmd chunk
                    (output_path +:+ "-chunk" +:+ pretty (i + k)%nat +:+ ".json"))
            chunks.
Proof.
  unfold appends. revert i w all_results.
  induction chunks as [|chunk rest IH]; intros i w all_results; cbn [analyze_chunks].
  - unfold ret. intros ?; simplify_eq. split; [done|].
    exists []. by rewrite app_nil_r.
  - unfold bind at 1.
    destruct (run_rhubarb_events h chunk
                (output_path +:+ "-chunk" +:+ pretty i +:+ ".json") w)
      as (r & w1 & evs1 & -> & Hevs1 & Hsp1 & Hun1).
    unfold bind at 1. unfold os_unlink.
    destruct (bool_decide (chunk ∈ files w1)); [|done].
    destruct (unlink_error h chunk w1); [done|].
    unfold bind at 1.
    destruct (analyze_chunks h output_path (S i) rest _) as [[rs|] w2] eqn:Hrest;
      [|done].
    unfold ret. intros ?; simplify_eq.
    destruct (IH _ _ _ Hrest) as (Hlen & evs & Hevs & Hun & Hsp).
    split; [simpl; by rewrite Hlen|].
    exists (evs1 ++ EUnlink chunk :: evs). simpl in Hevs.
    unfold appends in Hevs1. split_and!.
    + rewrite Hevs, Hevs1, <- !app_assoc. done.
    + by rewrite unlinked_app, unlinked_unlink, Hun1, Hun.
    + rewrite spawned_app, spawned_unlink, Hsp1, Hsp. simpl.
      rewrite Nat.add_0_r. f_equal.
      apply imap_ext. intros k c _. simpl. by rewrite Nat.add_succ_r.
Qed.

Lemma analyze_chunks_trace_witness :
  length (nth 0 demo_results JNull :: [nth 1 demo_results JNull])
  = length ["/tmp/chunk-1700000000000-0.wav"; "/tmp/chunk-1700000000000-1.wav"].
Proof.
  apply (analyze_chunks_trace (demo_host probe_45) "/tmp/output-1700000000000.json" 0
           ["/tmp/chunk-1700000000000-0.wav"; "/tmp/chunk-1700000000000-1.wav"]
           (World {["/tmp/chunk-1700000000000-0.wav"; "/tmp/chunk-1700000000000-1.wav"]} [])
           (analyze_chunks (demo_host probe_45) "/tmp/output-1700000000000.json" 0
              ["/tmp/chunk-1700000000000-0.wav"; "/tmp/chunk-1700000000000-1.wav"]
              (World {["/tmp/chunk-1700000000000-0.wav";
                       "/tmp/chunk-1700000000000-1.wav"]} [])).2).
  vm_compute. reflexivity.
Defined.

(** ** The merge: results and cues that are not of the documented shape *)

Lemma collect_cues_skip r before after :
  cues_of r = Ok [] →
  collect_cues (before ++ r :: after) = collect_cues (before ++ after).
Proof.
  intros Hr. induction before as [|r' before IH]; simpl.
  - rewrite Hr. simpl. by destruct (collect_cues after).
  - by rewrite IH.
Qed.

(** X12: a result that is falsy ([None], [false], 0, an empty string, list
    or dict) or a dict without the key [mouthCues] is no error: it is
    passed over, and the merge is that of the other results. *)
Theorem merge_skips_shapeless_result (h : host) (r : json) (before after : list json) :
  truthy r = false ∨ (∃ fields, r = JObj fields ∧ assoc "mouthCues" fields = None) →
  merge_results h (before ++ r :: after) = merge_results h (before ++ after).
Proof.
  intros Hr. unfold merge_results. rewrite collect_cues_skip; [done|].
  unfold cues_of. destruct Hr as [->|(fields & -> & Hkey)]; [done|].
  simpl. rewrite Hkey. by destruct fields.
Qed.

Lemma merge_skips_shapeless_result_witness :
  merge_results (demo_host probe_45)
    ([nth 0 demo_results JNull] ++ JObj [("error", JStr "no speech")] :: [JNull])
  = merge_results (demo_host probe_45) ([nth 0 demo_results JNull] ++ [JNull]).
Proof.
  apply (merge_skips_shapeless_result _ (JObj [("error", JStr "no speech")])).
  right. exists [("error", JStr "no speech")]. split; reflexivity.
Defined.

Lemma with_keys_missing_start all :
  Forall (λ c, ∃ fields, c = JObj fields) all →
  Exists (λ c, ∃ fields, c = JObj fields ∧ assoc "start" fields = None) all →
  with_keys start_key all = Raise "'start'".
Proof.
  induction 1 as [|c all [fields ->] Hall IH]; intros Hex.
  - by apply Exists_nil in Hex.
  - cbn [with_keys].
    destruct (assoc "start" fields) as [k|] eqn:Hk.
    + assert (start_key (JObj fields) = Ok k) as ->
        by (unfold start_key; simpl; by rewrite Hk).
      cbn [rbind]. rewrite IH; [done|].
      apply Exists_cons in Hex as [(fields' & ? & Hnone)|Hex]; [|done].
      simplify_eq.
    + assert (start_key (JObj fields) = Raise "'start'") as ->
        by (unfold start_key; simpl; by rewrite Hk).
      done.
Qed.

(** X13: the merge does not tolerate a cue without [start].  When every
    collected cue is a dict and one of them lacks the key, the sort raises
    [KeyError('start')] and the merge returns nothing at all, whatever the
    other chunks found. *)
Theorem merge_raises_on_missing_start (h : host) (all_results all : list json) :
  collect_cues all_results = Ok all →
  Forall (λ c, ∃ fields, c = JObj fields) all →
  Exists (λ c, ∃ fields, c = JObj fields ∧ assoc "start" fields = None) all →
  merge_results h all_results = Raise "'start'".
Proof.
  intros Hall Hdicts Hmissing. unfold merge_results, list_sort.
  rewrite Hall. simpl. by rewrite with_keys_missing_start.
Qed.

Lemma merge_raises_on_missing_start_witness :
  merge_results (demo_host probe_45)
    [nth 0 demo_results JNull;
     JObj [("mouthCues", JArr [JObj [("end", JNum 1); ("value", JStr "B")]])]]
  = Raise "'start'".
Proof.
  apply (merge_raises_on_missing_start _ _
           [cue 0 (1 # 2) "X"; cue 20 21 "A"; JObj [("end", JNum 1); ("value", JStr "B")]]).
  - reflexivity.
  - repeat constructor; by eexists.
  - do 2 apply Exists_cons_tl. apply Exists_cons_hd. by eexists.
Defined.

(** X14: cues that are already in ascending order of start come out of the
    merge exactly as they went in: for a clip of one chunk whose analyzer
    output is in time order, the response carries that output unchanged. *)
Theorem merge_keeps_sorted_result (h : host) (fields : list (string * json))
    (cues : list json) :
  assoc "mouthCues" fields = Some (JArr cues) →
  Forall (λ c, ∃ k, start_key c = Ok k) cues →
  Sorted start_le cues →
  merge_results h [JObj fields] = Ok cues.
Proof.
  intros Hfield Hkeys Hsorted.
  assert (cues_of (JObj fields) = Ok cues) as Hcues.
  { unfold cues_of. simpl. rewrite Hfield. by destruct fields. }
  unfold merge_results. cbn [collect_cues]. rewrite Hcues. simpl.
  rewrite app_nil_r. by apply list_sort_sorted_id.
Qed.

Lemma merge_keeps_sorted_result_witness :
  merge_results (demo_host probe_45)
    [JObj [("mouthCues", JArr [cue 0 (1 # 2) "X"; cue 20 21 "A"])]]
  = Ok [cue 0 (1 # 2) "X"; cue 20 21 "A"].
Proof.
  apply merge_keeps_sorted_result.
  - reflexivity.
  - repeat constructor; by eexists.
  - repeat constructor. eexists _, _. split_and!; reflexivity.
Defined.



(** X16: when no chunk contributes a cue, as when the analysis of every
    chunk has failed, the merge is the empty list and not an error. *)
Theorem merge_of_failed_chunks (h : host) (n : nat) :
  merge_results h (replicate n no_cues) = Ok [].
Proof.
  unfold merge_results.
  assert (collect_cues (replicate n no_cues) = Ok []) as ->; [|done].
  induction n as [|n IH]; simpl; [done|]. by rewrite IH.
Qed.

(** ** What a run does to the world *)

Section Keeps.
Context (h : host) (P : event → Prop).

Lemma keeps_ret {A} (a : A) : keeps P (ret a).
Proof. intros w. exists []. unfold appends. simpl. by rewrite app_nil_r. Qed.

Lemma keeps_raise {A} msg : keeps P (raise (A:=A) msg).
Proof. intros w. exists []. unfold appends. simpl. by rewrite app_nil_r. Qed.

Lemma keeps_lift {A} (r : result A) : keeps P (lift r).
Proof. intros w. exists []. unfold appends. simpl. by rewrite app_nil_r. Qed.

Lemma keeps_bind {A B} (Q : A → Prop) (c : io A) (k : A → io B) :
  keeps P c →
  (∀ a w w', c w = (Ok a, w') → Q a) →
  (∀ a, Q a → keeps P (k a)) →
  keeps P (bind c k).
Proof.
  intros Hc HQ Hk w. unfold bind, appends in *.
  destruct (Hc w) as (evs & Happ & HP).
  destruct (c w) as [[a|msg] w'] eqn:Hrun; simpl in *; [|by exists evs].
  destruct (Hk a (HQ _ _ _ Hrun) w') as (evs' & Happ' & HP').
  exists (evs ++ evs'). split; [|by apply Forall_app].
  by rewrite Happ', Happ, <- app_assoc.
Qed.

Lemma keeps_seq {A B} (c : io A) (k : A → io B) :
  keeps P c → (∀ a, keeps P (k a)) → keeps P (bind c k).
Proof. intros Hc Hk. by apply (keeps_bind (λ _, True)). Qed.

Lemma keeps_try {A} (body : io A) (handler : string → io A) :
  keeps P body → (∀ e, keeps P (handler e)) → keeps P (try_except body handler).
Proof.
  intros Hbody Hhandler w. unfold try_except, appends in *.
  destruct (Hbody w) as (evs & Happ & HP).
  destruct (body w) as [[a|msg] w'] eqn:Hrun; simpl in *; [by exists evs|].
  destruct (Hhandler msg w') as (evs' & Happ' & HP').
  exists (evs ++ evs'). split; [|by apply Forall_app].
  by rewrite Happ', Happ, <- app_assoc.
Qed.

Lemma keeps_print msg : P (EPrint msg) → keeps P (print msg).
Proof. intros HP w. exists [EPrint msg]. split; [done|by constructor]. Qed.

Lemma keeps_path_exists path : keeps P (os_path_exists path).
Proof. intros w. exists []. unfold appends. simpl. by rewrite app_nil_r. Qed.

Lemma keeps_subprocess_run cmd : P (ESpawn cmd) → keeps P (subprocess_run h cmd).
Proof.
  intros HP w. exists [ESpawn cmd]. split; [|by constructor].
  unfold appends, subprocess_run. by destruct (run_process h _ _) as [[]|].
Qed.

Lemma keeps_write_file path data : P (EWrite path data) → keeps P (write_file h path data).
Proof.
  intros HP w. unfold appends, write_file.
  destruct (open_wb h path w); simpl.
  - exists [EWrite path data]. split; [done|by constructor].
  - exists []. by rewrite app_nil_r.
Qed.

Lemma keeps_read_json path : keeps P (read_json h path).
Proof.
  intros w. exists []. unfold appends, read_json. rewrite app_nil_r.
  by destruct (bool_decide _).
Qed.

Lemma keeps_os_unlink path : P (EUnlink path) → keeps P (os_unlink h path).
Proof.
  intros HP w. unfold appends, os_unlink.
  destruct (bool_decide _); [destruct (unlink_error h path w)|]; simpl;
    try (exists []; by rewrite app_nil_r).
  exists [EUnlink path]. split; [done|by constructor].
Qed.

Lemma keeps_cleanup file_paths :
  (∀ msg, P (EPrint msg)) →
  Forall (λ path, P (EUnlink path)) file_paths →
  keeps P (cleanup_temp_files h file_paths).
Proof.
  intros Hprint. induction 1 as [|file_path rest Hpath _ IH]; cbn [cleanup_temp_files].
  - apply keeps_ret.
  - apply keeps_seq; [|done]. apply keeps_try; [|intros; by apply keeps_print].
    apply keeps_seq; [apply keeps_path_exists|].
    intros []; [by apply keeps_os_unlink|apply keeps_ret].
Qed.

Lemma keeps_convert_to_wav input_path output_path :
  P (ESpawn (convert_cmd input_path output_path)) →
  keeps P (convert_to_wav h input_path output_path).
Proof.
  intros Hspawn. apply keeps_try; [|intros; apply keeps_raise].
  apply keeps_seq; [by apply keeps_subprocess_run|].
  intros p. destruct (bool_decide _); [apply keeps_raise|apply keeps_ret].
Qed.

Lemma keeps_extract_chunks wav_path timestamp indices :
  (∀ i, P (ESpawn (chunk_cmd wav_path timestamp i))) →
  keeps P (extract_chunks h wav_path timestamp indices).
Proof.
  intros Hspawn. induction indices as [|i rest IH]; cbn [extract_chunks].
  - apply keeps_ret.
  - apply keeps_seq; [by apply keeps_subprocess_run|]. intros _.
    apply keeps_seq; [done|]. intros chunks. apply keeps_ret.
Qed.

Lemma keeps_split_audio wav_path timestamp :
  P (ESpawn (duration_cmd wav_path)) →
  (∀ i, P (ESpawn (chunk_cmd wav_path timestamp i))) →
  keeps P (split_audio_into_chunks h wav_path timestamp).
Proof.
  intros Hprobe Hspawn. apply keeps_try; [|intros; apply keeps_raise].
  apply keeps_seq; [by apply keeps_subprocess_run|]. intros p.
  apply keeps_seq; [apply keeps_lift|]. intros duration.
  apply keeps_seq; [apply keeps_lift|]. intros whole.
  by apply keeps_extract_chunks.
Qed.

Lemma keeps_run_rhubarb input_path output_path :
  (∀ msg, P (EPrint msg)) →
  P (ESpawn (rhubarb_cmd input_path output_path)) →
  keeps P (run_rhubarb h input_path output_path).
Proof.
  intros Hprint Hspawn. apply keeps_try.
  - apply keeps_seq; [by apply keeps_subprocess_run|]. intros p.
    destruct (bool_decide _).
    + apply keeps_seq; [by apply keeps_print|]. intros _. apply keeps_ret.
    + apply keeps_seq; [apply keeps_read_json|]. intros data. apply keeps_ret.
  - intros e. apply keeps_seq; [by apply keeps_print|]. intros _. apply keeps_ret.
Qed.

Lemma keeps_analyze_chunks output_path i chunks :
  (∀ msg, P (EPrint msg)) →
  (∀ k chunk, chunks !! k = Some chunk →
     P (ESpawn (rhubarb_cmd chunk
                  (output_path +:+ "-chunk" +:+ pretty (i + k)%nat +:+ ".json")))
     ∧ P (EUnlink chunk)) →
  keeps P (analyze_chunks h output_path i chunks).
Proof.
  intros Hprint. revert i.
  induction chunks as [|chunk rest IH]; intros i Hchunks; cbn [analyze_chunks].
  - apply keeps_ret.
  - destruct (Hchunks 0%nat chunk eq_refl) as [Hspawn Hunlink].
    rewrite Nat.add_0_r in Hspawn.
    apply keeps_seq; [by apply keeps_run_rhubarb|]. intros r.
    apply keeps_seq; [by apply keeps_os_unlink|]. intros _.
    apply keeps_seq; [|intros; apply keeps_ret].
    apply IH. intros k c Hk. rewrite Nat.add_succ_l, <- Nat.add_succ_r.
    by apply (Hchunks (S k)).
Qed.
End Keeps.

Lemma split_audio_chunk_names h wav_path timestamp w chunks w' :
  split_audio_into_chunks h wav_path timestamp w = (Ok chunks, w') →
  chunks = map (chunk_path timestamp) (seq 0 (length chunks)).
Proof.
  unfold split_audio_into_chunks. unfold_io. intros H.
  repeat case_match; simplify_eq.
  match goal with
  | Hloop : extract_chunks _ _ _ _ _ = (Ok _, _) |- _ =>
      destruct (extract_chunks_events _ _ _ _ _ _ _ Hloop) as [-> _]
  end.
  unfold range. by rewrite length_map, length_seq.
Qed.

Lemma chunk_output_not_own timestamp i :
  (chunk_output_of timestamp i
   ∉ [input_path_of timestamp; wav_path_of timestamp; output_path_of timestamp])
  ∧ ∀ j, chunk_output_of timestamp i ≠ chunk_path timestamp j.
Proof.
  split.
  - rewrite !elem_of_cons, elem_of_nil. intros [H|[H|[H|[]]]].
    + cbv [chunk_output_of output_path_of input_path_of String.app String.append] in H.
      discriminate.
    + cbv [chunk_output_of output_path_of wav_path_of String.app String.append] in H.
      discriminate.
    + apply (f_equal String.length) in H. unfold chunk_output_of in H.
      rewrite !string_length_app in H. simpl in H. lia.
  - intros j H.
    cbv [chunk_output_of output_path_of chunk_path String.app String.append] in H.
    discriminate.
Qed.

Lemma keeps_process_audio h audio_data timestamp :
  keeps (pipeline_event timestamp) (process_audio_with_rhubarb h audio_data timestamp).
Proof.
  unfold process_audio_with_rhubarb.
  fold (input_path_of timestamp) (wav_path_of timestamp) (output_path_of timestamp).
  assert (Forall (λ path, pipeline_event timestamp (EUnlink path))
            [input_path_of timestamp; wav_path_of timestamp; output_path_of timestamp])
    as Hown.
  { repeat constructor; left; set_solver. }
  apply keeps_try.
  - apply keeps_seq; [apply keeps_lift|]. intros audio_bytes.
    apply keeps_seq; [by apply keeps_write_file|]. intros _.
    apply (keeps_bind _ (λ wav_path, wav_path = wav_path_of timestamp)).
    { apply keeps_convert_to_wav. by left. }
    { intros ???. apply convert_to_wav_value. }
    intros _ ->.
    apply (keeps_bind _ (λ chunks,
             chunks = map (chunk_path timestamp) (seq 0 (length chunks)))).
    { apply keeps_split_audio; [right; by left|]. intros i. right. right. left. by exists i. }
    { intros ???. apply split_audio_chunk_names. }
    intros chunks Hchunks.
    apply keeps_seq.
    { apply keeps_analyze_chunks; [done|]. intros k chunk Hk.
      rewrite Hchunks, list_lookup_fmap in Hk.
      destruct (seq 0 (length chunks) !! k) as [k'|] eqn:Hseq; [|done].
      apply lookup_seq in Hseq as [-> _]. simpl in Hk. simplify_eq.
      split; [right; right; right; by exists k|right; by exists k]. }
    intros all_results. apply keeps_seq; [apply keeps_lift|]. intros mouth_cues.
    apply keeps_seq; [by apply keeps_cleanup|]. intros _. apply keeps_ret.
  - intros e. apply keeps_seq; [|intros; apply keeps_raise].
    apply keeps_cleanup; [done|].
    apply Forall_cons in Hown as [? Hown]. apply Forall_cons in Hown as [_ ?].
    by constructor.
Qed.

(** X17: every run, returning or raising, on every host, adds only these
    events to the trace: it writes no file but its input file, starts no
    program but ffmpeg, ffprobe and rhubarb on its own files, and unlinks
    nothing but its input, its wav, [/tmp/output-<timestamp>.json] and its
    chunks.  In particular it never unlinks the output file of a chunk's
    analysis. *)
Theorem run_events (h : host) (audio_data timestamp : string) (w : world) :
  ∃ evs,
    appends w (process_audio_with_rhubarb h audio_data timestamp w).2 evs
    ∧ Forall (pipeline_event timestamp) evs
    ∧ ∀ i, chunk_output_of timestamp i ∉ unlinked evs.
Proof.
  destruct (keeps_process_audio h audio_data timestamp w) as (evs & Happ & Hevs).
  exists evs. split_and!; [done..|].
  intros i Hin. unfold unlinked in Hin.
  apply list_elem_of_omap in Hin as (e & He & Hpath).
  destruct e; simplify_eq.
  rewrite Forall_forall in Hevs. specialize (Hevs _ He). simpl in Hevs.
  destruct (chunk_output_not_own timestamp i) as [Hnot Hchunk].
  destruct Hevs as [?|[j ?]]; [done|by eapply Hchunk].
Qed.

(** X18: on a machine where [os.unlink] does not fail, no run leaves its
    input file or a file named [/tmp/output-<timestamp>.json] behind,
    whether it returns or raises; and a run that returns does not leave the
    normalised wav behind either. *)
Theorem run_removes_input_and_wav (h : host) (audio_data timestamp : string)
    (w w' : world) (res : result json) :
  (∀ path w0, unlink_error h path w0 = None) →
  process_audio_with_rhubarb h audio_data timestamp w = (res, w') →
  (input_path_of timestamp ∉ files w')
  ∧ (output_path_of timestamp ∉ files w')
  ∧ ∀ r, res = Ok r → wav_path_of timestamp ∉ files w'.
Proof.
  intros Hunlink. unfold process_audio_with_rhubarb.
  fold (input_path_of timestamp) (wav_path_of timestamp) (output_path_of timestamp).
  unfold_io. intros Hrun.
  repeat case_match; simplify_eq;
    match goal with
    | Hclean : cleanup_temp_files h ?paths ?w0 = _ |- _ =>
        destruct (cleanup_post h paths w0) as (w_end & Heq & _ & Hgone);
        rewrite Heq in Hclean; simplify_eq
    end;
    (split_and!; [apply Hgone; [set_solver|done]..|]);
    intros r ?; simplify_eq.
  match goal with
  | Hconv : convert_to_wav _ _ _ _ = (Ok _, _) |- _ =>
      apply convert_to_wav_value in Hconv as ->
  end.
  apply Hgone; [set_solver|done].
Qed.

Lemma run_removes_input_and_wav_witness :
  input_path_of "1700000000000"
    ∉ files (process_audio_with_rhubarb (demo_host probe_45) "UklGRg=="
               "1700000000000" empty_world).2.
Proof.
  apply (run_removes_input_and_wav (demo_host probe_45) "UklGRg==" "1700000000000"
           empty_world _
           (process_audio_with_rhubarb (demo_host probe_45) "UklGRg=="
              "1700000000000" empty_world).1).
  - reflexivity.
  - by destruct (process_audio_with_rhubarb _ _ _ _).
Defined.

(** The test of line 32 on audio data that is not blank. *)
Lemma nonblank_test audio_data :
  all_space audio_data = false →
  negb (truthy (JStr audio_data)) || String.eqb (strip audio_data) "" = false.
Proof.
  intros Hblank. apply orb_false_iff. split.
  - by destruct audio_data.
  - apply String.eqb_neq. intros Hs%strip_empty. congruence.
Qed.

(** X19: audio data that is not blank always reaches the pipeline, with
    the timestamp of the clock in milliseconds: [predict] returns what the
    pipeline returns, and turns what it raises into the [error] field of an
    object with no cues. *)
Theorem predict_runs_pipeline (h : host) (audio_data : string) (w : world) :
  all_space audio_data = false →
  predict h audio_data false w
  = match process_audio_with_rhubarb h audio_data
            (pretty (truncate (time_time h w * 1000))) w with
    | (Ok r, w') => (Ok r, w')
    | (Raise e, w') => (Ok (JObj [("error", JStr e); ("mouthCues", JArr [])]), w')
    end.
Proof.
  intros Hblank. unfold predict. unfold_io.
  rewrite (nonblank_test _ Hblank).
  by destruct (process_audio_with_rhubarb h audio_data _ w) as [[r|e] w'].
Qed.

Lemma predict_runs_pipeline_witness :
  (predict (demo_host probe_45) "UklGRg==" false empty_world).1
  = Ok (JObj [("mouthCues", JArr [cue 0 (1 # 2) "X"; cue (1 # 2) 1 "B"; cue 20 21 "A"])]).
Proof.
  rewrite (predict_runs_pipeline (demo_host probe_45) "UklGRg==" empty_world);
    vm_compute; reflexivity.
Defined.

(** X20: audio data that is not base64 never gets as far as a file or a
    program: when neither of the two names the handler cleans exists, the
    world is left as it was and the response carries the decoder's
    message. *)
Theorem predict_malformed_base64 (h : host) (audio_data msg : string) (w : world) :
  all_space audio_data = false →
  b64decode h audio_data = Raise msg →
  input_path_of (timestamp_at h w) ∉ files w →
  output_path_of (timestamp_at h w) ∉ files w →
  predict h audio_data false w
  = (Ok (JObj [("error", JStr msg); ("mouthCues", JArr [])]), w).
Proof.
  intros Hblank Hdecode Hin Hout.
  unfold predict. unfold_io. rewrite (nonblank_test _ Hblank).
  fold (timestamp_at h w). unfold process_audio_with_rhubarb. unfold_io.
  fold (input_path_of (timestamp_at h w)) (output_path_of (timestamp_at h w)).
  rewrite Hdecode. cbn [cleanup_temp_files]. unfold os_path_exists. unfold_io.
  by rewrite (bool_decide_false _ Hin), (bool_decide_false _ Hout).
Qed.

Lemma predict_malformed_base64_witness :
  predict (demo_host probe_45) "!!!" false empty_world
  = (Ok (JObj [("error", JStr "Incorrect padding"); ("mouthCues", JArr [])]),
     empty_world).
Proof.
  apply (predict_malformed_base64 (demo_host probe_45) "!!!" "Incorrect padding"
           empty_world).
  - reflexivity.
  - reflexivity.
  - apply (bool_decide_eq_false_1 _). vm_compute. reflexivity.
  - apply (bool_decide_eq_false_1 _). vm_compute. reflexivity.
Defined.

(** X21: results of the shape the analyzer documents, a dict whose
    [mouthCues] is a list of dicts with a numeric [start], are always
    merged: nothing raises, whatever the number of chunks and cues, and
    the merged cues are again of that shape. *)
Theorem merge_accepts_documented_shape (h : host) (all_results : list json) :
  forallb well_formed_result all_results = true →
  ∃ mouth_cues,
    merge_results h all_results = Ok mouth_cues
    ∧ forallb well_formed_cue mouth_cues = true.
Proof.
  intros Hwf. destruct (merge_results_returns h _ Hwf) as [mouth_cues Hmerge].
  exists mouth_cues. split; [done|].
  destruct (merge_results_perm _ _ _ Hmerge) as (all & Hall & _ & Hperm).
  apply forallb_forall. intros c Hc%list_elem_of_In.
  rewrite Hperm in Hc.
  destruct (collect_cues_spec _ _ Hall c) as [(r & v & items & Hr & Hget & Hiter & Hin) _];
    [done|].
  rewrite forallb_forall in Hwf. specialize (Hwf r (proj1 (list_elem_of_In _ _) Hr)).
  destruct r as [| | | | | | | |fields]; try done. simpl in Hwf, Hget.
  destruct (assoc "mouthCues" fields) as [[| | | | | | |cues|]|]; try done.
  simplify_eq. simpl in Hiter. simplify_eq.
  rewrite forallb_forall in Hwf. by apply Hwf, list_elem_of_In.
Qed.

Lemma merge_accepts_documented_shape_witness :
  ∃ mouth_cues,
    merge_results (demo_host probe_45) demo_results = Ok mouth_cues
    ∧ forallb well_formed_cue mouth_cues = true.
Proof.
  apply (merge_accepts_documented_shape (demo_host probe_45) demo_results). reflexivity.
Defined.
